(** * ReAct agent response parsing (src/agent/agent.ts)

    A shallow embedding of the text-processing core of [agent.ts]:
    the quote-stripping helpers, the two scratchpad builders and the two
    response parsers, together with the fragment of ECMAScript regular
    expression matching that the source relies on.

    JavaScript strings are sequences of UTF-16 code units; a code unit is
    modelled as an [N] and a string as a list of code units.  Regular
    expressions without the [u] flag work on code units as well. *)

From Stdlib Require Import String Ascii List NArith ZArith Bool Lia.
Import ListNotations.

(** ** Strings *)

Definition char := N.
Definition str := list char.

Module Lit.

(** Source-level string literals.  [js] reads a Rocq string the way the
    JavaScript lexer reads the body of a string literal, for the escapes
    used in this development: [\n], [\r], [\t], [\\] and [\xHH]. *)

Definition hexval (a : ascii) : option N :=
  let n := N_of_ascii a in
  if (48 <=? n)%N && (n <=? 57)%N then Some (n - 48)%N
  else if (65 <=? n)%N && (n <=? 70)%N then Some (n - 55)%N
  else if (97 <=? n)%N && (n <=? 102)%N then Some (n - 87)%N
  else None.

Fixpoint js (s : string) : str :=
  match s with
  | EmptyString => []
  | String "\"%char (String "n"%char s') => 10%N :: js s'
  | String "\"%char (String "r"%char s') => 13%N :: js s'
  | String "\"%char (String "t"%char s') => 9%N :: js s'
  | String "\"%char (String "\"%char s') => 92%N :: js s'
  | String "\"%char (String "x"%char (String h (String l s'))) =>
      match hexval h, hexval l with
      | Some a, Some b => (16 * a + b)%N :: js s'
      | _, _ => 92%N :: 120%N :: N_of_ascii h :: N_of_ascii l :: js s'
      end
  | String a s' => N_of_ascii a :: js s'
  end.

End Lit.
Export Lit.

(** The two quote characters. *)
Definition dquote : char := 34%N.
Definition squote : char := 39%N.

Fixpoint str_eqb (a b : str) : bool :=
  match a, b with
  | [], [] => true
  | x :: a', y :: b' => (x =? y)%N && str_eqb a' b'
  | _, _ => false
  end.

(** A non-empty string is truthy, the empty string is falsy. *)
Definition truthy (s : str) : bool :=
  match s with [] => false | _ :: _ => true end.

(** ECMAScript LineTerminator: LF, CR, LS, PS. *)
Definition isLineTerminator (c : char) : bool :=
  ((c =? 10) || (c =? 13) || (c =? 0x2028) || (c =? 0x2029))%N.

(** ECMAScript WhiteSpace: TAB, VT, FF, ZWNBSP and the Unicode
    space separators. *)
Definition isWhiteSpace (c : char) : bool :=
  ((c =? 9) || (c =? 11) || (c =? 12) || (c =? 32) || (c =? 0xA0)
   || (c =? 0x1680) || ((0x2000 <=? c) && (c <=? 0x200A))
   || (c =? 0x202F) || (c =? 0x205F) || (c =? 0x3000) || (c =? 0xFEFF))%N.

(** What [String.prototype.trim] removes at both ends. *)
Definition isTrimmable (c : char) : bool :=
  isWhiteSpace c || isLineTerminator c.

Fixpoint trimStart (s : str) : str :=
  match s with
  | [] => []
  | c :: s' => if isTrimmable c then trimStart s' else s
  end.

Definition trimEnd (s : str) : str := rev (trimStart (rev s)).

Definition trim (s : str) : str := trimEnd (trimStart s).

Fixpoint startsWith (p s : str) : bool :=
  match p, s with
  | [], _ => true
  | _ :: _, [] => false
  | x :: p', y :: s' => (x =? y)%N && startsWith p' s'
  end.

(** [s.indexOf(p)], [-1] when [p] does not occur in [s]. *)
Fixpoint indexOfFrom (i : Z) (s p : str) : Z :=
  if startsWith p s then i
  else match s with
       | [] => (-1)%Z
       | _ :: s' => indexOfFrom (i + 1)%Z s' p
       end.

Definition indexOf (s p : str) : Z := indexOfFrom 0%Z s p.

(** ** Regular expressions

    The fragment of ECMAScript patterns used by [agent.ts]: literal
    characters, [.], the greedy [.*], [$] (without the multiline flag),
    concatenation, alternation and capture groups.  The matcher follows
    the continuation-passing backtracking semantics of the language
    specification: a matcher takes the rest of the input, the captures
    so far and a continuation, and alternatives are tried in priority
    order. *)

Inductive regex : Type :=
| Eps
| Chr (c : char)
| Dot
| DotStar
| Eos
| Cat (r1 r2 : regex)
| Alt (r1 r2 : regex)
| Grp (i : nat) (r : regex).

Fixpoint Str (l : str) : regex :=
  match l with
  | [] => Eps
  | c :: l' => Cat (Chr c) (Str l')
  end.

Definition captures := list (nat * str).

(** [m[i]].  Every group of the patterns below takes part in every
    match of its pattern, so a missing group does not arise; it reads as
    the empty string. *)
Fixpoint group (m : captures) (i : nat) : str :=
  match m with
  | [] => []
  | (j, v) :: m' => if Nat.eqb i j then v else group m' i
  end.

Section Matcher.

Variable A : Type.

(** Greedy [.*]: consume as many non-line-terminators as possible,
    giving characters back one at a time when the continuation fails. *)
Fixpoint dotstar (s : str) (k : str -> option A) : option A :=
  match s with
  | [] => k []
  | c :: s' =>
      if isLineTerminator c then k s
      else match dotstar s' k with
           | Some r => Some r
           | None => k s
           end
  end.

End Matcher.

Arguments dotstar {A} s k.

Fixpoint rmatch (r : regex) (s : str) (caps : captures)
         (k : str -> captures -> option captures) : option captures :=
  match r with
  | Eps => k s caps
  | Chr c =>
      match s with
      | c' :: s' => if (c =? c')%N then k s' caps else None
      | [] => None
      end
  | Dot =>
      match s with
      | c' :: s' => if isLineTerminator c' then None else k s' caps
      | [] => None
      end
  | DotStar => dotstar s (fun s' => k s' caps)
  | Eos =>
      match s with
      | [] => k [] caps
      | _ :: _ => None
      end
  | Cat r1 r2 => rmatch r1 s caps (fun s' caps' => rmatch r2 s' caps' k)
  | Alt r1 r2 =>
      match rmatch r1 s caps k with
      | Some m => Some m
      | None => rmatch r2 s caps k
      end
  | Grp i r =>
      rmatch r s caps
        (fun s' caps' =>
           k s' ((i, firstn (length s - length s') s) :: caps'))
  end.

(** One attempt at the current position. *)
Definition matchHere (r : regex) (s : str) : option captures :=
  rmatch r s [] (fun _ caps => Some caps).

(** [str.match(r)] for a non-global pattern: the first start position,
    from left to right, at which the pattern matches. *)
Fixpoint exec (r : regex) (s : str) : option captures :=
  match matchHere r s with
  | Some m => Some m
  | None =>
      match s with
      | [] => None
      | _ :: s' => exec r s'
      end
  end.

(** ** Quote stripping (agent.ts, lines 15-25) *)

(** The pattern built by [new RegExp] in [strip]: the character [c], a
    capturing greedy dot-star, the character [c] again.  [c] is one of
    the two quote characters at both call sites. *)
Definition re_strip (c : char) : regex :=
  Cat (Chr c) (Cat (Grp 1 DotStar) (Chr c)).

Definition strip (s : str) (c : char) : str :=
  match exec (re_strip c) s with
  | Some m => group m 1
  | None => s
  end.

Definition stripQuotes (s : str) : str :=
  strip (strip s dquote) squote.

(** ** Numbers: [parseFloat] and the comparison with 9 (line 222) *)

(** What [parseFloat] reads: not a number, an infinity, or the decimal
    numeral [m * 10^e] with its sign.  The decimal value is kept exact. *)
Inductive number : Type :=
| NaN
| Infinity (neg : bool)
| Decimal (neg : bool) (m : N) (e : Z).

Definition isDigit (c : char) : bool := ((48 <=? c) && (c <=? 57))%N.

(** Reads a run of decimal digits: the value accumulated on [acc], the
    number of digits read added to [n], and the rest of the input. *)
Fixpoint readDigits (acc : N) (n : nat) (s : str) : N * nat * str :=
  match s with
  | [] => (acc, n, [])
  | c :: s' =>
      if isDigit c then readDigits (10 * acc + (c - 48))%N (S n) s'
      else (acc, n, s)
  end.

Definition readSign (s : str) : bool * str :=
  match s with
  | 43%N :: s' => (false, s')
  | 45%N :: s' => (true, s')
  | _ => (false, s)
  end.

(** The exponent part: [e] or [E], an optional sign and at least one
    digit; anything else is left unread and counts as no exponent. *)
Definition readExponent (s : str) : Z :=
  match s with
  | c :: s' =>
      if ((c =? 101) || (c =? 69))%N then
        let '(neg, s'') := readSign s' in
        let '(v, n, _) := readDigits 0 0 s'' in
        match n with
        | O => 0%Z
        | S _ => if neg then (- Z.of_N v)%Z else Z.of_N v
        end
      else 0%Z
  | [] => 0%Z
  end.

(** [parseFloat]: leading white space is skipped, then the longest prefix
    that is a StrDecimalLiteral is read; the rest is ignored. *)
Definition parseFloat (s : str) : number :=
  let '(neg, r) := readSign (trimStart s) in
  if startsWith (js "Infinity") r then Infinity neg
  else
    let '(m1, n1, r1) := readDigits 0 0 r in
    let '(m2, n2, r2) :=
      match r1 with
      | 46%N :: t => readDigits m1 0 t
      | _ => (m1, O, r1)
      end in
    match (n1 + n2)%nat with
    | O => NaN
    | S _ => Decimal neg m2 (readExponent r2 - Z.of_nat n2)%Z
    end.

(** The exact value of a decimal numeral as a fraction. *)
Definition numerator (m : N) (e : Z) : Z := (Z.of_N m * 10 ^ Z.max e 0)%Z.
Definition denominator (e : Z) : Z := (10 ^ Z.max (- e) 0)%Z.

(** [x >= 9] on the Number that [parseFloat] returns, which is the
    double nearest to the decimal value (ties to even).  The double just
    below 9 is [9 - 2^-49] and 9 has an even significand, so the result
    is at least 9 exactly when the decimal value is at least
    [9 - 2^-50]. *)
Definition geNine (x : number) : bool :=
  match x with
  | NaN => false
  | Infinity neg => negb neg
  | Decimal neg m e =>
      negb neg
      && ((9 * 2 ^ 50 - 1) * denominator e <=? 2 ^ 50 * numerator m e)%Z
  end.

(** The decimal value itself is at least 9. *)
Definition valueAtLeastNine (x : number) : Prop :=
  match x with
  | NaN => False
  | Infinity neg => neg = false
  | Decimal neg m e =>
      neg = false /\ (9 * denominator e <= numerator m e)%Z
  end.

(** ** Data model *)

(** Modelled from the spec: the declaration of [Plugin] (the Tool
    Descriptor of section 3) is in [@/types/agent], outside the source
    at hand.  Its fields are the spec's: a machine-facing name, a
    human-facing name, the two descriptions, an optional logo reference
    and a display flag, under the names used at lines 259-264. *)
Record Plugin : Type := {
  nameForModel : str;
  nameForHuman : str;
  descriptionForHuman : str;
  descriptionForModel : str;
  logoUrl : option str;
  displayForUser : bool
}.

(** The [action] variant of an Agent Decision. *)
Record Action : Type := {
  thought : str;
  plugin : Plugin;
  pluginInput : str
}.

(** [ReactAgentResult]: the tagged variant [action] | [answer]. *)
Inductive ReactAgentResult : Type :=
| action_ (a : Action)
| answer_ (answer : str).

(** A Prior Step Record. *)
Record PluginResult : Type := {
  action : Action;
  result : str
}.

(** A call either returns a decision or throws [new Error(message)]. *)
Inductive outcome : Type :=
| Return (r : ReactAgentResult)
| Throw (message : str).

(** ** Scratchpad builders (lines 88-97 and 179-192) *)

(** One iteration of the conversational loop.  The template interpolates
    [actionResult.action.plugin], an object, so the text that appears is
    its string conversion [toStr]. *)
Definition appendStep (toStr : Plugin -> str)
           (agentScratchpad : str) (actionResult : PluginResult) : str :=
  agentScratchpad
    ++ js "Thought:" ++ thought (action actionResult)
    ++ js "\nAction:" ++ toStr (plugin (action actionResult))
    ++ js "\nAction Input: " ++ pluginInput (action actionResult)
    ++ js "\nObservation: " ++ result actionResult ++ js "\n".

Definition agentScratchpad (toStr : Plugin -> str)
           (toolActionResults : list PluginResult) : str :=
  let agentScratchpad :=
    if (0 <? length toolActionResults)%nat
    then fold_left (appendStep toStr) toolActionResults []
    else [] in
  agentScratchpad ++ js "Thought:".

(** [Object.prototype.toString] on a plain object. *)
Definition objectToString (_ : Plugin) : str := js "[object Object]".

(** [s.split(sep)] for a one-character separator. *)
Fixpoint split (sep : char) (s : str) : list str :=
  match s with
  | [] => [[]]
  | c :: s' =>
      if (c =? sep)%N then [] :: split sep s'
      else match split sep s' with
           | l :: ls => (c :: l) :: ls
           | [] => [[c]]
           end
  end.

Definition fence (observation : str) : str :=
  if (5 <? length (split 10%N observation))%nat
  then js "\x22\x22\x22\n" ++ observation ++ js "\n\x22\x22\x22"
  else observation.

Definition appendStepNotConversational
           (agentScratchpad : str) (actionResult : PluginResult) : str :=
  let observation := fence (result actionResult) in
  agentScratchpad
    ++ js "Thought: " ++ thought (action actionResult)
    ++ js "\nAction: " ++ nameForModel (plugin (action actionResult))
    ++ js "\nAction Input: " ++ pluginInput (action actionResult)
    ++ js "\nObservation: " ++ observation ++ js "\n".

Definition agentScratchpadNotConversational
           (toolActionResults : list PluginResult) : str :=
  let agentScratchpad :=
    if (0 <? length toolActionResults)%nat
    then fold_left appendStepNotConversational toolActionResults []
    else [] in
  agentScratchpad ++ js "Thought:".

(** ** Response parsers *)

(** The patterns of [_parseResult] and [parseResultForNotConversational],
    in the order in which the source uses them. *)
Definition re_thought : regex :=
  Cat (Grp 1 DotStar) (Str (js "\nAction:")).
Definition re_action : regex :=
  Cat (Str (js "Action: ")) (Grp 1 DotStar).
Definition re_actionInput : regex :=
  Cat (Str (js "Action Input: ")) (Grp 1 DotStar).
Definition re_AI : regex :=
  Cat (Str (js "AI:")) (Grp 1 DotStar).
Definition re_finalAnswer : regex :=
  Cat (Str (js "Final Answer:")) (Grp 1 DotStar).
Definition re_positivity : regex :=
  Cat (Str (js "\nPositivity:")) (Grp 1 DotStar).
Definition re_lineEnd : regex := Grp 2 (Alt (Chr 10%N) Eos).
Definition re_actionNC : regex :=
  Cat (Str (js "Action:")) (Cat (Grp 1 DotStar) re_lineEnd).
Definition re_actionInputNC : regex :=
  Cat (Str (js "Action Input: ")) (Cat (Grp 1 DotStar) re_lineEnd).

(** [m ? m[1] : ''], also the shape of [let x = ''; if (m) x = m[1] || '']. *)
Definition group1OrEmpty (m : option captures) : str :=
  match m with
  | Some m => group m 1
  | None => []
  end.

(** [tools.find((tool) => tool.nameForModel === action)] *)
Definition findTool (tools : list Plugin) (action : str) : option Plugin :=
  find (fun tool => str_eqb (nameForModel tool) action) tools.

(** Lines 113-144. *)
Definition _parseResult (tools : list Plugin) (result : str) : outcome :=
  let matchThought := exec re_thought result in
  let thought := group1OrEmpty matchThought in
  let matchAction := exec re_action result in
  match truthy thought, matchAction with
  | true, Some mA =>
      let actionStr := group mA 1 in
      let matchActionInput := exec re_actionInput result in
      let toolInputStr := group1OrEmpty matchActionInput in
      let toolInput := stripQuotes (trim toolInputStr) in
      let action := stripQuotes (trim actionStr) in
      match findTool tools action with
      | None => Throw (js "Tool not found: " ++ action)
      | Some tool =>
          Return (action_ {| thought := trim thought;
                             plugin := tool;
                             pluginInput := toolInput |})
      end
  | _, _ =>
      let matchAnswer := exec re_AI result in
      let answer := group1OrEmpty matchAnswer in
      Return (answer_ answer)
  end.

(** The object literal of lines 258-265: a copy of six fields. *)
Definition project (tool : Plugin) : Plugin :=
  {| nameForModel := nameForModel tool;
     nameForHuman := nameForHuman tool;
     descriptionForHuman := descriptionForHuman tool;
     descriptionForModel := descriptionForModel tool;
     logoUrl := logoUrl tool;
     displayForUser := displayForUser tool |}.

(** The test of line 222. *)
Definition positivityHigh (result : str) : bool :=
  match exec re_positivity result with
  | Some m => geNine (parseFloat (trim (group m 1)))
  | None => false
  end.

(** Lines 209-270. *)
Definition parseResultForNotConversational
           (tools : list Plugin) (result : str) : outcome :=
  let matchAnswer := exec re_finalAnswer result in
  let answer := group1OrEmpty matchAnswer in
  let answerResult := answer_ (trim answer) in
  if positivityHigh result && truthy answer then Return answerResult
  else
    let matchThought := exec re_thought result in
    let thought := group1OrEmpty matchThought in
    let matchAction := exec re_actionNC result in
    let action :=
      match truthy thought, matchAction with
      | true, Some mA => stripQuotes (trim (group mA 1))
      | _, _ => []
      end in
    if truthy thought && truthy action
       && (indexOf action (js "None") =? -1)%Z
    then
      match findTool tools action with
      | None =>
          if truthy answer then Return answerResult
          else Throw (js "Tool " ++ action ++ js " not found")
      | Some tool =>
          let matchActionInput := exec re_actionInputNC result in
          let toolInputStr := group1OrEmpty matchActionInput in
          let toolInput := stripQuotes (trim toolInputStr) in
          Return (action_ {| thought := trim thought;
                             plugin := project tool;
                             pluginInput := toolInput |})
      end
    else Return answerResult.

(** ** Text-level vocabulary for the statements *)

(** [p] occurs in [s] as a contiguous substring. *)
Definition occurs (p s : str) : Prop :=
  exists a b, s = a ++ p ++ b.

(** [u] is what follows the first (leftmost) occurrence of [p] in [s]. *)
Definition firstAfter (p s u : str) : Prop :=
  exists a, s = a ++ p ++ u /\
            forall a' u', s = a' ++ p ++ u' -> length a <= length a'.

(** The text up to the next line terminator, and what is left from that
    line terminator on. *)
Fixpoint line (s : str) : str :=
  match s with
  | [] => []
  | c :: s' => if isLineTerminator c then [] else c :: line s'
  end.

Fixpoint afterLine (s : str) : str :=
  match s with
  | [] => []
  | c :: s' => if isLineTerminator c then s else afterLine s'
  end.

Definition singleLine (s : str) : Prop :=
  Forall (fun c => isLineTerminator c = false) s.

(** Executable counterpart of [firstAfter]. *)
Fixpoint afterFirst (p s : str) : option str :=
  if startsWith p s then Some (skipn (length p) s)
  else match s with
       | [] => None
       | _ :: s' => afterFirst p s'
       end.

(** The two shapes of pattern that the parsers share: a literal marker
    followed by a captured rest of line, and a captured line followed by
    a marker that starts with a line feed. *)
Definition markerLine (p : str) : regex := Cat (Str p) (Grp 1 DotStar).

Definition lineBefore (p : str) : regex :=
  Cat (Grp 1 DotStar) (Str (10%N :: p)).

(** A text that is empty or ends with a line terminator. *)
Definition endsLine (pre : str) : Prop :=
  pre = [] \/ exists pre' c, pre = pre' ++ [c] /\ isLineTerminator c = true.

(** Two occurrences of the character [c] with no line terminator in
    between. *)
Definition hasPair (c : char) (s : str) : Prop :=
  exists a m b, s = a ++ c :: m ++ c :: b /\ singleLine m.

(** The spans that the parsers extract, under the names of the source's
    local variables. *)
Definition thoughtCapture (result : str) : str :=
  group1OrEmpty (exec re_thought result).
Definition answerCapture (result : str) : str :=
  group1OrEmpty (exec re_finalAnswer result).
Definition toolInputCapture (result : str) : str :=
  group1OrEmpty (exec re_actionInput result).
Definition toolInputCaptureNC (result : str) : str :=
  group1OrEmpty (exec re_actionInputNC result).

(** Everything in [s] that precedes the first occurrence of [p]. *)
Fixpoint textBefore (p s : str) : str :=
  if startsWith p s then []
  else match s with
       | [] => []
       | c :: s' => c :: textBefore p s'
       end.

(** Each line followed by a line feed. *)
Definition unlines (ls : list str) : str :=
  concat (map (fun l => l ++ [10%N]) ls).

(** The text of one prior step in the conversational scratchpad, line by
    line; [toStr] is the string conversion of the tool object. *)
Definition stepText (toStr : Plugin -> str) (r : PluginResult) : str :=
  unlines [ js "Thought:" ++ thought (action r);
            js "Action:" ++ toStr (plugin (action r));
            js "Action Input: " ++ pluginInput (action r);
            js "Observation: " ++ result r ].

(** The text of one prior step in the non-conversational scratchpad. *)
Definition stepTextNotConversational (r : PluginResult) : str :=
  unlines [ js "Thought: " ++ thought (action r);
            js "Action: " ++ nameForModel (plugin (action r));
            js "Action Input: " ++ pluginInput (action r);
            js "Observation: " ++ fence (result r) ].

(** The four lines of one prior step as the specification words them,
    for both modes, and the scratchpad they add up to. *)
Definition specStepText (r : PluginResult) : str :=
  unlines [ js "Thought:" ++ thought (action r);
            js "Action:" ++ nameForModel (plugin (action r));
            js "Action Input: " ++ pluginInput (action r);
            js "Observation: " ++ result r ].

Definition specScratchpad (rs : list PluginResult) : str :=
  concat (map specStepText rs) ++ js "Thought:".

(** A tool set and a prior step used in the examples. *)
Definition webSearch : Plugin :=
  {| nameForModel := js "web_search";
     nameForHuman := js "Web Search";
     descriptionForHuman := js "Search the web.";
     descriptionForModel := js "useful for searching the web";
     logoUrl := None;
     displayForUser := true |}.

Definition calculator : Plugin :=
  {| nameForModel := js "calculator";
     nameForHuman := js "Calculator";
     descriptionForHuman := js "Evaluate arithmetic.";
     descriptionForModel := js "useful for arithmetic";
     logoUrl := None;
     displayForUser := false |}.

Definition searchStep : PluginResult :=
  {| action := {| thought := js "I should search.";
                  plugin := webSearch;
                  pluginInput := js "weather today" |};
     result := js "Sunny." |}.

(** Completions used in the examples. *)
Definition searchCompletion : str :=
  js "I should search.\nAction: web_search\nAction Input: weather today\n".

Definition quotedThoughtWithAnswer : str :=
  js "\x22Go\x22\nAction: web_search\nAction Input: \x22x\x22\nFinal Answer: Done.\nPositivity: 9.5".

Definition confidentAnswerThenAction : str :=
  js "Final Answer: Done.\nPositivity: 9.5\nI should search.\nAction: web_search\nAction Input: x".

Definition positivityOnFirstLine : str :=
  js "Positivity: 9.5\nFinal Answer: Done.\nI should search.\nAction: web_search\nAction Input: x".

Definition placeholderAction : str := js "think\nAction: None\n".

Definition unknownToolCompletion : str :=
  js "Thought: try tool\nAction: unknown_tool\nAction Input: x".

Definition twoLineThought : str :=
  js "line1\nline2\nAction: web_search".

(** The third shape of pattern: a literal marker, a captured rest of
    line, and then a line feed or the end of the text. *)
Definition markerLineEnd (p : str) : regex :=
  Cat (Str p) (Cat (Grp 1 DotStar) re_lineEnd).

(** A text that is empty or starts with a line feed. *)
Definition breaksOrEnds (w : str) : Prop :=
  w = [] \/ exists w', w = 10%N :: w'.

(** No string of a decision holds a line terminator. *)
Definition singleLineDecision (r : ReactAgentResult) : Prop :=
  match r with
  | action_ a => singleLine (thought a) /\ singleLine (pluginInput a)
  | answer_ x => singleLine x
  end.

(** A completion in the format the prompts ask for: a thought line, an
    action line, an action-input line, and what comes after. *)
Definition wellFormedCompletion (t n i tail : str) : str :=
  t ++ js "\nAction: " ++ n ++ js "\nAction Input: " ++ i ++ tail.

(** ** Prompt variables (lines 99-103 and 194-198) *)

(** [Array.prototype.join]. *)
Fixpoint join (sep : str) (l : list str) : str :=
  match l with
  | [] => []
  | [x] => x
  | x :: l' => x ++ sep ++ join sep l'
  end.

Definition toolDescriptions (tools : list Plugin) : str :=
  join (js "\n")
       (map (fun tool => nameForModel tool ++ js ": "
                           ++ descriptionForModel tool) tools).

Definition toolNames (tools : list Plugin) : str :=
  join (js ",") (map (fun tool => nameForModel tool) tools).

Definition toolNamesNotConversational (tools : list Plugin) : str :=
  join (js ", ") (map (fun tool => nameForModel tool) tools).

(** * Properties *)

(** ** Strings *)

Lemma str_eqb_eq (a b : str) : str_eqb a b = true <-> a = b.
Proof.
  revert b; induction a as [|x a IH]; intros [|y b]; simpl;
    try (split; [discriminate | discriminate]); try tauto.
  rewrite andb_true_iff, N.eqb_eq, IH.
  split; [intros [-> ->]; reflexivity | intros H; inversion H; auto].
Qed.

Lemma str_eqb_refl (a : str) : str_eqb a a = true.
Proof. apply str_eqb_eq; reflexivity. Qed.

Lemma truthy_true (s : str) : truthy s = true <-> s <> [].
Proof. destruct s; simpl; split; congruence. Qed.

Lemma truthy_false (s : str) : truthy s = false <-> s = [].
Proof. destruct s; simpl; split; congruence. Qed.

Lemma startsWith_cons (x y : char) (p s : str) :
  startsWith (x :: p) (y :: s) = (x =? y)%N && startsWith p s.
Proof. reflexivity. Qed.

Lemma startsWith_app (p u : str) : startsWith p (p ++ u) = true.
Proof.
  induction p as [|c p IH]; simpl; [reflexivity|].
  rewrite N.eqb_refl; exact IH.
Qed.

Lemma startsWith_inv (p s : str) :
  startsWith p s = true -> s = p ++ skipn (length p) s.
Proof.
  revert s; induction p as [|c p IH]; intros [|d s]; simpl;
    try reflexivity; try discriminate.
  rewrite andb_true_iff, N.eqb_eq; intros [-> H].
  f_equal; apply IH, H.
Qed.

Lemma startsWith_occurs (p s : str) : startsWith p s = true -> occurs p s.
Proof.
  intros H; exists [], (skipn (length p) s); simpl.
  apply startsWith_inv, H.
Qed.

Lemma occurs_cons (p s : str) (c : char) : occurs p s -> occurs p (c :: s).
Proof. intros (a & b & ->); exists (c :: a), b; reflexivity. Qed.

Lemma occurs_app_l (p s a : str) : occurs p s -> occurs p (a ++ s).
Proof.
  intros (x & y & ->); exists (a ++ x), y; rewrite app_assoc; reflexivity.
Qed.

Lemma occurs_prefix (p q s : str) : occurs (p ++ q) s -> occurs p s.
Proof.
  intros (a & b & ->); exists a, (q ++ b); rewrite <- app_assoc; reflexivity.
Qed.

Lemma occurs_suffix (p q s : str) : occurs (p ++ q) s -> occurs q s.
Proof.
  intros (a & b & ->); exists (a ++ p), b.
  rewrite <- !app_assoc; reflexivity.
Qed.

Lemma line_afterLine (s : str) : line s ++ afterLine s = s.
Proof.
  induction s as [|c s IH]; simpl; [reflexivity|].
  destruct (isLineTerminator c); simpl; [reflexivity | f_equal; exact IH].
Qed.

Lemma line_singleLine (s : str) : singleLine (line s).
Proof.
  induction s as [|c s IH]; simpl; [constructor|].
  destruct (isLineTerminator c) eqn:E; constructor; assumption.
Qed.

Lemma length_afterLine (s : str) : length (afterLine s) <= length s.
Proof.
  induction s as [|c s IH]; simpl; [lia|].
  destruct (isLineTerminator c); simpl; lia.
Qed.

Lemma firstn_line (s : str) :
  firstn (length s - length (afterLine s)) s = line s.
Proof.
  rewrite <- (line_afterLine s) at 1 3.
  rewrite length_app.
  replace (length (line s) + length (afterLine s) - length (afterLine s))
    with (length (line s) + 0) by lia.
  rewrite firstn_app_2; simpl; apply app_nil_r.
Qed.

(** A line that is followed by a line terminator or by nothing. *)
Lemma line_app (l w : str) :
  singleLine l ->
  (w = [] \/ exists c w', w = c :: w' /\ isLineTerminator c = true) ->
  line (l ++ w) = l /\ afterLine (l ++ w) = w.
Proof.
  intros Hl Hw; induction Hl as [|c l Hc Hl IH]; simpl.
  - destruct Hw as [-> | (c & w' & -> & Hc)]; simpl; [auto|].
    rewrite Hc; auto.
  - rewrite Hc; destruct IH as [-> ->]; auto.
Qed.

Lemma afterFirst_Some (p s u : str) :
  afterFirst p s = Some u <-> firstAfter p s u.
Proof.
  split.
  - revert u; induction s as [|c s IH]; intros u; simpl.
    + destruct (startsWith p []) eqn:E; [|discriminate].
      intros [= <-]; exists []; split; [|intros; simpl; lia].
      simpl; apply startsWith_inv in E; exact E.
    + destruct (startsWith p (c :: s)) eqn:E.
      * intros [= <-]; exists []; split; [|intros; simpl; lia].
        simpl; apply startsWith_inv in E; exact E.
      * intros H; destruct (IH _ H) as (a & -> & Hmin).
        exists (c :: a); split; [reflexivity|].
        intros [|d a'] u' Heq; simpl in Heq.
        -- rewrite Heq, startsWith_app in E; discriminate.
        -- injection Heq as <- Heq; simpl.
           specialize (Hmin _ _ Heq); lia.
  - intros (a & -> & Hmin); induction a as [|c a IH].
    + simpl. destruct (p ++ u) as [|d t] eqn:E; simpl; rewrite <- E;
        rewrite startsWith_app; f_equal;
        rewrite skipn_app, skipn_all, Nat.sub_diag; reflexivity.
    + simpl. destruct (startsWith p (c :: a ++ p ++ u)) eqn:E.
      * apply startsWith_inv in E.
        specialize (Hmin [] _ E); simpl in Hmin; lia.
      * apply IH; intros a' u' Heq.
        specialize (Hmin (c :: a') u'); simpl in Hmin.
        rewrite Heq in Hmin; specialize (Hmin eq_refl); lia.
Qed.

Lemma afterFirst_None (p s : str) :
  afterFirst p s = None <-> ~ occurs p s.
Proof.
  split.
  - intros H (a & b & ->).
    assert (exists u, afterFirst p (a ++ p ++ b) = Some u) as [u Hu];
      [|congruence].
    clear H; induction a as [|c a IH]; simpl.
    + destruct (p ++ b) eqn:E; simpl; rewrite <- E;
        rewrite startsWith_app; eauto.
    + destruct (startsWith p (c :: a ++ p ++ b)); eauto.
  - intros H; induction s as [|c s IH]; simpl.
    + destruct (startsWith p []) eqn:E; [|reflexivity].
      exfalso; apply H, startsWith_occurs, E.
    + destruct (startsWith p (c :: s)) eqn:E.
      * exfalso; apply H, startsWith_occurs, E.
      * apply IH; intros Ho; apply H, occurs_cons, Ho.
Qed.

Lemma indexOfFrom_found (i : Z) (s p : str) :
  (0 <= i)%Z -> afterFirst p s <> None -> indexOfFrom i s p <> (-1)%Z.
Proof.
  revert i; induction s as [|c s IH]; intros i Hi; simpl.
  - destruct (startsWith p []); [lia | congruence].
  - destruct (startsWith p (c :: s)); [lia|].
    apply IH; lia.
Qed.

Lemma indexOf_occurs (s p : str) : occurs p s -> indexOf s p <> (-1)%Z.
Proof.
  intros H; apply indexOfFrom_found; [lia|].
  intros E; apply afterFirst_None in E; contradiction.
Qed.

Lemma indexOfFrom_absent (i : Z) (s p : str) :
  ~ occurs p s -> indexOfFrom i s p = (-1)%Z.
Proof.
  intros H; apply afterFirst_None in H.
  revert i H; induction s as [|c s IH]; intros i; simpl.
  - destruct (startsWith p []); [discriminate | reflexivity].
  - destruct (startsWith p (c :: s)); [discriminate|].
    apply IH.
Qed.

(** ** The matcher *)

Section DotStar.

Variable A : Type.
Implicit Types (k : str -> option A) (s : str).

(** The longest candidate is tried first. *)
Lemma dotstar_greedy s k r :
  k (afterLine s) = Some r -> dotstar s k = Some r.
Proof.
  induction s as [|c s IH]; simpl; [auto|].
  destruct (isLineTerminator c); [auto|].
  intros H; rewrite (IH H); reflexivity.
Qed.

(** When what follows cannot start with an ordinary character, only
    the whole line is a candidate. *)
Lemma dotstar_barrier s k :
  (forall c s', isLineTerminator c = false -> k (c :: s') = None) ->
  dotstar s k = k (afterLine s).
Proof.
  intros Hk; induction s as [|c s IH]; simpl; [reflexivity|].
  destruct (isLineTerminator c) eqn:E; [reflexivity|].
  rewrite IH, (Hk c s E); destruct (k (afterLine s)); reflexivity.
Qed.

Lemma dotstar_sound s k r :
  dotstar s k = Some r ->
  exists a b, s = a ++ b /\ singleLine a /\ k b = Some r.
Proof.
  induction s as [|c s IH]; simpl.
  - intros H; exists [], []; repeat split; [constructor | exact H].
  - destruct (isLineTerminator c) eqn:E.
    + intros H; exists [], (c :: s); repeat split; [constructor | exact H].
    + destruct (dotstar s k) as [r'|] eqn:D.
      * intros [= <-]; destruct (IH eq_refl) as (a & b & -> & Ha & Hb).
        exists (c :: a), b; repeat split; [constructor|]; assumption.
      * intros H; exists [], (c :: s); repeat split; [constructor | exact H].
Qed.

Lemma dotstar_complete a b k :
  singleLine a -> k b <> None -> dotstar (a ++ b) k <> None.
Proof.
  intros Ha Hb; induction Ha as [|c a Hc Ha IH]; simpl.
  - destruct b as [|c b]; simpl; [exact Hb|].
    destruct (isLineTerminator c); [exact Hb|].
    destruct (dotstar b k); [discriminate | exact Hb].
  - rewrite Hc; destruct (dotstar (a ++ b) k); [discriminate|].
    contradiction.
Qed.

End DotStar.

Lemma rmatch_Str (p s : str) (caps : captures) k :
  rmatch (Str p) s caps k
  = if startsWith p s then k (skipn (length p) s) caps else None.
Proof.
  revert s; induction p as [|c p IH]; intros s; simpl; [reflexivity|].
  destruct s as [|d s]; [reflexivity|].
  destruct (c =? d)%N; simpl; [apply IH | reflexivity].
Qed.

Lemma exec_eq (r : regex) (s : str) :
  exec r s = match matchHere r s with
             | Some m => Some m
             | None => match s with
                       | [] => None
                       | _ :: s' => exec r s'
                       end
             end.
Proof. destruct s; reflexivity. Qed.

Lemma exec_sound (r : regex) (s : str) (m : captures) :
  exec r s = Some m -> exists a u, s = a ++ u /\ matchHere r u = Some m.
Proof.
  induction s as [|c s IH]; simpl.
  - destruct (matchHere r []) eqn:E; [|discriminate].
    intros [= <-]; exists [], []; auto.
  - destruct (matchHere r (c :: s)) eqn:E.
    + intros [= <-]; exists [], (c :: s); auto.
    + intros H; destruct (IH H) as (a & u & -> & Hu).
      exists (c :: a), u; auto.
Qed.

Lemma exec_complete (r : regex) (a u : str) :
  matchHere r u <> None -> exec r (a ++ u) <> None.
Proof.
  intros H; induction a as [|c a IH]; simpl.
  - destruct u as [|c u]; simpl; destruct (matchHere r _);
      try discriminate; contradiction.
  - destruct (matchHere r (c :: a ++ u)); [discriminate | exact IH].
Qed.

Lemma exec_none (r : regex) (s : str) :
  (forall a u, s = a ++ u -> matchHere r u = None) -> exec r s = None.
Proof.
  intros H; destruct (exec r s) as [m|] eqn:E; [|reflexivity].
  destruct (exec_sound _ _ _ E) as (a & u & Hs & Hu).
  rewrite (H _ _ Hs) in Hu; discriminate.
Qed.

(** *** A marker followed by a captured rest of line *)

Lemma matchHere_markerLine (p s : str) :
  matchHere (markerLine p) s
  = if startsWith p s then Some [(1, line (skipn (length p) s))] else None.
Proof.
  unfold matchHere, markerLine; simpl; rewrite rmatch_Str.
  destruct (startsWith p s); [|reflexivity].
  simpl; apply dotstar_greedy; rewrite firstn_line; reflexivity.
Qed.

Lemma exec_markerLine (p s : str) :
  exec (markerLine p) s
  = option_map (fun u => [(1, line u)]) (afterFirst p s).
Proof.
  induction s as [|c s IH].
  - simpl exec; simpl afterFirst; rewrite matchHere_markerLine.
    destruct (startsWith p []); reflexivity.
  - simpl exec; simpl afterFirst; rewrite matchHere_markerLine.
    destruct (startsWith p (c :: s)); [reflexivity | exact IH].
Qed.

Lemma capture_markerLine (p s u : str) :
  firstAfter p s u -> group1OrEmpty (exec (markerLine p) s) = line u.
Proof.
  intros H; apply afterFirst_Some in H.
  rewrite exec_markerLine, H; reflexivity.
Qed.

(** A pattern that begins with a literal cannot match a text in which
    the literal does not occur. *)
Lemma exec_literal_absent (p : str) (r : regex) (s : str) :
  ~ occurs p s -> exec (Cat (Str p) r) s = None.
Proof.
  intros H; apply exec_none; intros a u ->.
  unfold matchHere; simpl; rewrite rmatch_Str.
  destruct (startsWith p u) eqn:E; [|reflexivity].
  exfalso; apply H, occurs_app_l, startsWith_occurs, E.
Qed.

(** *** A captured line followed by a marker that starts with LF *)

Lemma matchHere_lineBefore (p s : str) :
  matchHere (lineBefore p) s
  = if startsWith (10%N :: p) (afterLine s)
    then Some [(1, line s)] else None.
Proof.
  unfold matchHere, lineBefore.
  change (rmatch (Cat (Grp 1 DotStar) (Str (10%N :: p))) s []
            (fun _ caps => Some caps))
    with (dotstar s (fun s' =>
            rmatch (Str (10%N :: p)) s'
              [(1, firstn (length s - length s') s)]
              (fun _ caps => Some caps))).
  rewrite dotstar_barrier.
  - rewrite rmatch_Str, firstn_line; reflexivity.
  - intros c s' Hc; rewrite rmatch_Str, startsWith_cons.
    destruct (10 =? c)%N eqn:E; [|reflexivity].
    apply N.eqb_eq in E; subst c; discriminate.
Qed.

Lemma exec_lineBefore_line (p l w : str) :
  singleLine l ->
  (w = [] \/ exists c w', w = c :: w' /\ isLineTerminator c = true) ->
  exec (lineBefore p) (l ++ w)
  = if startsWith (10%N :: p) w then Some [(1, l)]
    else exec (lineBefore p) (tl w).
Proof.
  intros Hl Hw; induction Hl as [|c l Hc Hl IH].
  - destruct (line_app [] w) as [E1 E2];
      [constructor | exact Hw |].
    change ([] ++ w) with w in *.
    rewrite (exec_eq _ w), matchHere_lineBefore, E1, E2.
    destruct (startsWith (10%N :: p) w) eqn:E; [reflexivity|].
    destruct w as [|d w]; [|reflexivity].
    simpl tl; rewrite exec_eq, matchHere_lineBefore; reflexivity.
  - destruct (line_app (c :: l) w) as [E1 E2];
      [constructor; assumption | exact Hw |].
    rewrite (exec_eq _ ((c :: l) ++ w)), matchHere_lineBefore, E1, E2.
    destruct (startsWith (10%N :: p) w); [reflexivity | exact IH].
Qed.

Lemma exec_lineBefore_absent (p s : str) :
  ~ occurs (10%N :: p) s -> exec (lineBefore p) s = None.
Proof.
  intros H; apply exec_none; intros a u ->.
  rewrite matchHere_lineBefore.
  destruct (startsWith (10%N :: p) (afterLine u)) eqn:E; [|reflexivity].
  exfalso; apply H, occurs_app_l.
  rewrite <- (line_afterLine u); apply occurs_app_l, startsWith_occurs, E.
Qed.

(** The pattern for the action of the non-conversational parser asks
    for a line feed or the end of the text after the captured line; a
    line that ends in CR LF does not match it, while the pattern of the
    conversational parser does not look past the line. *)
Lemma action_patterns_on_CRLF :
  exec re_actionNC (js "think\nAction: web_search\r\n") = None /\
  exec re_action (js "think\nAction: web_search\r\n")
  = Some [(1, js "web_search")] /\
  exec re_actionNC (js "think\nAction: web_search")
  = Some [(2, []); (1, js " web_search")].
Proof. repeat split. Qed.

(** ** Quote stripping *)

Lemma firstn_app_exact (a b : str) :
  firstn (length (a ++ b) - length b) (a ++ b) = a.
Proof.
  rewrite length_app.
  replace (length a + length b - length b) with (length a + 0) by lia.
  rewrite firstn_app_2; simpl; apply app_nil_r.
Qed.

Lemma matchHere_strip_sound (c : char) (u : str) (m : captures) :
  matchHere (re_strip c) u = Some m ->
  exists a b, u = c :: a ++ c :: b /\ singleLine a /\ m = [(1, a)].
Proof.
  unfold matchHere, re_strip; cbn [rmatch].
  destruct u as [|d v]; [discriminate|].
  destruct (c =? d)%N eqn:E; [|discriminate].
  apply N.eqb_eq in E; subst d; intros H.
  apply dotstar_sound in H; destruct H as (a & b & -> & Ha & Hb).
  destruct b as [|d b]; [discriminate|].
  destruct (c =? d)%N eqn:E; [|discriminate].
  apply N.eqb_eq in E; subst d.
  exists a, b; repeat split; [assumption|].
  rewrite firstn_app_exact in Hb; injection Hb as <-; reflexivity.
Qed.

Lemma matchHere_strip_complete (c : char) (a b : str) :
  singleLine a -> matchHere (re_strip c) (c :: a ++ c :: b) <> None.
Proof.
  intros Ha; unfold matchHere, re_strip; cbn [rmatch].
  rewrite N.eqb_refl; apply dotstar_complete; [assumption|].
  rewrite N.eqb_refl; discriminate.
Qed.

Lemma exec_strip_hasPair (c : char) (s : str) :
  exec (re_strip c) s <> None <-> hasPair c s.
Proof.
  split.
  - destruct (exec (re_strip c) s) as [m|] eqn:E; [intros _ | congruence].
    destruct (exec_sound _ _ _ E) as (pre & u & -> & Hu).
    destruct (matchHere_strip_sound _ _ _ Hu) as (a & b & -> & Ha & _).
    exists pre, a, b; auto.
  - intros (pre & a & b & -> & Ha).
    apply exec_complete, matchHere_strip_complete, Ha.
Qed.

(** What [strip] returns: the input itself when no line holds two [c],
    otherwise a segment that lies between two [c] on one line. *)
Lemma strip_cases (c : char) (s : str) :
  (~ hasPair c s /\ strip s c = s) \/
  (exists pre a b,
      s = pre ++ c :: a ++ c :: b /\ singleLine a /\ strip s c = a).
Proof.
  unfold strip; destruct (exec (re_strip c) s) as [m|] eqn:E.
  - right; destruct (exec_sound _ _ _ E) as (pre & u & -> & Hu).
    destruct (matchHere_strip_sound _ _ _ Hu) as (a & b & -> & Ha & ->).
    exists pre, a, b; auto.
  - left; split; [|reflexivity].
    intros H; apply exec_strip_hasPair in H; congruence.
Qed.

Lemma strip_length (c : char) (s : str) : length (strip s c) <= length s.
Proof.
  destruct (strip_cases c s) as [[_ ->] | (pre & a & b & -> & _ & ->)];
    [lia|].
  rewrite length_app; simpl; rewrite length_app; simpl; lia.
Qed.

Lemma strip_unchanged (c : char) (s : str) :
  strip s c = s <-> ~ hasPair c s.
Proof.
  destruct (strip_cases c s) as [[H ->] | (pre & a & b & E & Ha & ->)];
    [tauto|].
  split.
  - intros ->; exfalso.
    apply (f_equal (@length _)) in E.
    rewrite length_app in E; simpl in E; rewrite length_app in E.
    simpl in E; lia.
  - intros H; exfalso; apply H; exists pre, a, b; auto.
Qed.

Lemma stripQuotes_unchanged (s : str) :
  stripQuotes s = s <-> ~ hasPair dquote s /\ ~ hasPair squote s.
Proof.
  unfold stripQuotes; split.
  - intros H.
    assert (E : strip s dquote = s).
    { destruct (strip_cases dquote s)
        as [[_ E] | (pre & a & b & E & _ & Es)]; [exact E|].
      exfalso.
      pose proof (strip_length squote (strip s dquote)) as L.
      rewrite H, Es in L.
      apply (f_equal (@length _)) in E.
      rewrite length_app in E; simpl in E; rewrite length_app in E.
      simpl in E; lia. }
    rewrite E in H; split; apply strip_unchanged; assumption.
  - intros [Hd Hs].
    apply strip_unchanged in Hd; rewrite Hd.
    apply strip_unchanged, Hs.
Qed.

(** C6.  Stripping [\x22it's\x22] removes only the double quotes, but
    the pattern of [strip] is not anchored: a string whose quotes do not
    surround it is not returned unchanged, the text outside the quoted
    span is dropped.  The tool input [say \x22hi\x22 now] reaches the
    tool as [hi]. *)
Theorem C6_stripQuotes_drops_text_outside_quotes :
  stripQuotes (js "\x22it's\x22") = js "it's" /\
  stripQuotes (js "say \x22hi\x22 now") = js "hi" /\
  stripQuotes (js "say \x22hi\x22 now") <> js "say \x22hi\x22 now" /\
  _parseResult [webSearch]
    (js "I should search.\nAction: web_search\nAction Input: say \x22hi\x22 now\n")
  = Return (action_ {| thought := js "I should search.";
                       plugin := webSearch;
                       pluginInput := js "hi" |}).
Proof. repeat split; try reflexivity; discriminate. Qed.

(** C7, as stated, fails: a doubly quoted string loses one layer per
    application. *)
Lemma C7_not_idempotent :
  stripQuotes (js "\x22\x22foo\x22\x22") = js "\x22foo\x22" /\
  stripQuotes (stripQuotes (js "\x22\x22foo\x22\x22")) = js "foo" /\
  stripQuotes (stripQuotes (js "\x22\x22foo\x22\x22"))
  <> stripQuotes (js "\x22\x22foo\x22\x22").
Proof. repeat split; try reflexivity; discriminate. Qed.

(** C7, amended.  One application removes one layer, so doubly wrapped
    strings are not fixed after one pass.  A string in which no line
    holds two double quotes or two single quotes is returned unchanged;
    hence a second application changes nothing whenever the first result
    has no such pair left.  The three examples of the claim hold. *)
Theorem C7_stripQuotes_fixed_points :
  (forall s, ~ hasPair dquote s -> ~ hasPair squote s ->
             stripQuotes s = s) /\
  (forall s, ~ hasPair dquote (stripQuotes s) ->
             ~ hasPair squote (stripQuotes s) ->
             stripQuotes (stripQuotes s) = stripQuotes s) /\
  stripQuotes (js "\x22foo\x22") = js "foo" /\
  stripQuotes (js "'foo'") = js "foo" /\
  stripQuotes (js "foo") = js "foo".
Proof.
  assert (F : forall s, ~ hasPair dquote s -> ~ hasPair squote s ->
                        stripQuotes s = s).
  { intros s Hd Hs; apply stripQuotes_unchanged; split; assumption. }
  split; [exact F|].
  split; [intros s; apply F|].
  repeat split.
Qed.

(** Stripping the already stripped [foo] again changes nothing. *)
Lemma C7_stripQuotes_fixed_points_witness :
  stripQuotes (stripQuotes (js "\x22foo\x22"))
  = stripQuotes (js "\x22foo\x22").
Proof.
  apply (proj1 (proj2 C7_stripQuotes_fixed_points) (js "\x22foo\x22")).
  - intros H; apply exec_strip_hasPair in H; apply H; reflexivity.
  - intros H; apply exec_strip_hasPair in H; apply H; reflexivity.
Defined.

(** ** Scratchpad *)

Lemma appendStep_stepText toStr (acc : str) (r : PluginResult) :
  appendStep toStr acc r = acc ++ stepText toStr r.
Proof.
  unfold appendStep, stepText, unlines; cbn [map concat].
  rewrite app_nil_r, <- !app_assoc; reflexivity.
Qed.

Lemma appendStepNotConversational_stepText (acc : str) (r : PluginResult) :
  appendStepNotConversational acc r = acc ++ stepTextNotConversational r.
Proof.
  unfold appendStepNotConversational, stepTextNotConversational, unlines.
  cbn [map concat]; rewrite app_nil_r, <- !app_assoc; reflexivity.
Qed.

Lemma fold_appendStep toStr (rs : list PluginResult) (acc : str) :
  fold_left (appendStep toStr) rs acc = acc ++ concat (map (stepText toStr) rs).
Proof.
  revert acc; induction rs as [|r rs IH]; intros acc; cbn [fold_left map concat].
  - symmetry; apply app_nil_r.
  - rewrite IH, appendStep_stepText, <- app_assoc; reflexivity.
Qed.

Lemma fold_appendStepNotConversational (rs : list PluginResult) (acc : str) :
  fold_left appendStepNotConversational rs acc
  = acc ++ concat (map stepTextNotConversational rs).
Proof.
  revert acc; induction rs as [|r rs IH]; intros acc; cbn [fold_left map concat].
  - symmetry; apply app_nil_r.
  - rewrite IH, appendStepNotConversational_stepText, <- app_assoc.
    reflexivity.
Qed.

(** C8, as stated, fails in non-conversational mode: the lines there are
    [Thought: ...] and [Action: ...] with a space after the colon. *)
Lemma C8_not_conversational_format_differs :
  agentScratchpadNotConversational [searchStep]
  = js "Thought: I should search.\nAction: web_search\nAction Input: weather today\nObservation: Sunny.\nThought:" /\
  specScratchpad [searchStep]
  = js "Thought:I should search.\nAction:web_search\nAction Input: weather today\nObservation: Sunny.\nThought:" /\
  agentScratchpadNotConversational [searchStep] <> specScratchpad [searchStep].
Proof. repeat split; try reflexivity; discriminate. Qed.

(** C8, amended.  Both builders emit the steps in sequence order, one
    block of four lines per step, then the cue [Thought:] with nothing
    after it.  In non-conversational mode the lines are [Thought: t],
    [Action: name], [Action Input: i], [Observation: o], the last one
    fenced when long; in conversational mode they are [Thought:t],
    [Action:] followed by the string conversion of the tool object,
    [Action Input: i], [Observation: o]. *)
Theorem C8_scratchpad_blocks_in_order :
  (forall rs,
      agentScratchpadNotConversational rs
      = concat (map stepTextNotConversational rs) ++ js "Thought:") /\
  (forall toStr rs,
      agentScratchpad toStr rs
      = concat (map (stepText toStr) rs) ++ js "Thought:") /\
  (forall rs1 rs2,
      agentScratchpadNotConversational (rs1 ++ rs2)
      = concat (map stepTextNotConversational rs1)
          ++ concat (map stepTextNotConversational rs2) ++ js "Thought:") /\
  (forall toStr rs1 rs2,
      agentScratchpad toStr (rs1 ++ rs2)
      = concat (map (stepText toStr) rs1)
          ++ concat (map (stepText toStr) rs2) ++ js "Thought:").
Proof.
  assert (NC : forall rs,
             agentScratchpadNotConversational rs
             = concat (map stepTextNotConversational rs) ++ js "Thought:").
  { intros rs; unfold agentScratchpadNotConversational.
    destruct rs as [|r rs]; [reflexivity|].
    change (0 <? length (r :: rs))%nat with true; cbv iota.
    rewrite fold_appendStepNotConversational; reflexivity. }
  assert (CV : forall toStr rs,
             agentScratchpad toStr rs
             = concat (map (stepText toStr) rs) ++ js "Thought:").
  { intros toStr rs; unfold agentScratchpad.
    destruct rs as [|r rs]; [reflexivity|].
    change (0 <? length (r :: rs))%nat with true; cbv iota.
    rewrite fold_appendStep; reflexivity. }
  repeat split; intros.
  - apply NC.
  - apply CV.
  - rewrite NC, map_app, concat_app, <- app_assoc; reflexivity.
  - rewrite CV, map_app, concat_app, <- app_assoc; reflexivity.
Qed.

(** In conversational mode the tool object itself is interpolated; a
    plain object renders as [[object Object]], not as its name. *)
Lemma agentScratchpad_object_rendering :
  agentScratchpad objectToString [searchStep]
  = js "Thought:I should search.\nAction:[object Object]\nAction Input: weather today\nObservation: Sunny.\nThought:".
Proof. reflexivity. Qed.

(** An observation of more than five lines is fenced. *)
Lemma fence_long :
  fence (js "1\n2\n3\n4\n5\n6") = js "\x22\x22\x22\n1\n2\n3\n4\n5\n6\n\x22\x22\x22" /\
  fence (js "1\n2\n3\n4\n5") = js "1\n2\n3\n4\n5".
Proof. split; reflexivity. Qed.

(** ** Numbers *)

Lemma denominator_pos (e : Z) : (0 < denominator e)%Z.
Proof. unfold denominator; apply Z.pow_pos_nonneg; lia. Qed.

(** Rounding to the nearest double cannot take a value of at least 9
    below 9. *)
Lemma valueAtLeastNine_geNine (x : number) :
  valueAtLeastNine x -> geNine x = true.
Proof.
  destruct x as [|neg|neg m e]; cbn [valueAtLeastNine geNine].
  - intros [].
  - intros ->; reflexivity.
  - intros [-> H]; cbn [negb andb]; apply Z.leb_le.
    pose proof (denominator_pos e) as D.
    revert H D; generalize (denominator e), (numerator m e); intros d n H D.
    change (2 ^ 50)%Z with 1125899906842624%Z; lia.
Qed.

(** ** Tool resolution *)

Lemma findTool_Some (tools : list Plugin) (a : str) (tool : Plugin) :
  findTool tools a = Some tool -> In tool tools /\ nameForModel tool = a.
Proof.
  intros H; apply find_some in H; destruct H as [Hin H].
  split; [exact Hin | apply str_eqb_eq, H].
Qed.

Lemma findTool_In (tools : list Plugin) (t : Plugin) :
  In t tools ->
  exists tool, findTool tools (nameForModel t) = Some tool /\
               In tool tools /\ nameForModel tool = nameForModel t.
Proof.
  intros H; destruct (findTool tools (nameForModel t)) as [tool|] eqn:E.
  - exists tool; split; [reflexivity | apply findTool_Some, E].
  - exfalso; pose proof (find_none _ _ E _ H) as N; simpl in N.
    rewrite str_eqb_refl in N; discriminate.
Qed.

Lemma findTool_None (tools : list Plugin) (a : str) :
  findTool tools a = None <->
  forall t, In t tools -> nameForModel t <> a.
Proof.
  split.
  - intros E t Hin Heq; pose proof (find_none _ _ E _ Hin) as N; simpl in N.
    rewrite Heq, str_eqb_refl in N; discriminate.
  - intros H; destruct (findTool tools a) as [tool|] eqn:E; [|reflexivity].
    apply findTool_Some in E; destruct E as [Hin Heq].
    exfalso; exact (H _ Hin Heq).
Qed.

(** ** The thought line *)

Lemma line_before_terminator (pre x : str) :
  Exists (fun c => isLineTerminator c = true) pre ->
  length (line (pre ++ x)) < length pre.
Proof.
  induction pre as [|c pre IH]; intros H; [inversion H|].
  simpl; destruct (isLineTerminator c) eqn:E; simpl; [lia|].
  inversion H as [? ? Hc | ? ? Ht]; subst; [congruence|].
  specialize (IH Ht); lia.
Qed.

Lemma endsLine_tail (c : char) (pre : str) :
  endsLine (c :: pre) -> endsLine pre.
Proof.
  intros [H | (pre' & d & E & Hd)]; [discriminate|].
  destruct pre' as [|e pre']; simpl in E; injection E as -> ->.
  - left; reflexivity.
  - right; exists pre', d; auto.
Qed.

Lemma endsLine_Exists (c : char) (pre : str) :
  endsLine (c :: pre) ->
  Exists (fun c => isLineTerminator c = true) (c :: pre).
Proof.
  intros [H | (pre' & d & E & Hd)]; [discriminate|].
  rewrite E; apply Exists_app; right; constructor; exact Hd.
Qed.

(** The pattern of the thought finds the line that ends at the first
    occurrence of LF followed by the marker. *)
Lemma exec_lineBefore_first (p pre ln tail : str) :
  endsLine pre ->
  singleLine ln ->
  (forall a u, pre ++ ln ++ (10%N :: p) ++ tail = a ++ (10%N :: p) ++ u ->
               length (pre ++ ln) <= length a) ->
  exec (lineBefore p) (pre ++ ln ++ (10%N :: p) ++ tail) = Some [(1, ln)].
Proof.
  intros Hpre Hln; induction pre as [|c pre IH]; intros Hmin.
  - change ([] ++ ln ++ (10%N :: p) ++ tail)
      with (ln ++ (10%N :: p) ++ tail).
    rewrite exec_lineBefore_line.
    + rewrite startsWith_app; reflexivity.
    + exact Hln.
    + right; exists 10%N, (p ++ tail); split; reflexivity.
  - rewrite exec_eq, matchHere_lineBefore.
    destruct (startsWith (10%N :: p)
                (afterLine ((c :: pre) ++ ln ++ (10%N :: p) ++ tail))) eqn:E.
    + exfalso.
      apply startsWith_inv in E.
      pose proof (line_afterLine ((c :: pre) ++ ln ++ (10%N :: p) ++ tail))
        as L.
      rewrite E in L; symmetry in L.
      specialize (Hmin _ _ L).
      pose proof (line_before_terminator (c :: pre)
                    (ln ++ (10%N :: p) ++ tail)
                    (endsLine_Exists c pre Hpre)) as Hlt.
      rewrite length_app in Hmin; unfold str, char in *; lia.
    + change ((c :: pre) ++ ln ++ (10%N :: p) ++ tail)
        with (c :: (pre ++ ln ++ (10%N :: p) ++ tail)).
      cbv iota; apply IH; [eapply endsLine_tail; eassumption|].
      intros a u Heq.
      specialize (Hmin (c :: a) u (f_equal (cons c) Heq)).
      rewrite length_app in *; simpl in Hmin; unfold str, char in *; lia.
Qed.

(** ** The conversational parser, branch by branch *)

Lemma _parseResult_resolved (tools : list Plugin) (result : str)
      (mA : captures) (tool : Plugin) :
  thoughtCapture result <> [] ->
  exec re_action result = Some mA ->
  findTool tools (stripQuotes (trim (group mA 1))) = Some tool ->
  _parseResult tools result
  = Return (action_ {| thought := trim (thoughtCapture result);
                       plugin := tool;
                       pluginInput :=
                         stripQuotes (trim (toolInputCapture result)) |}).
Proof.
  intros Ht Ha Hf; apply truthy_true in Ht.
  unfold _parseResult, thoughtCapture, toolInputCapture in *; cbv zeta.
  rewrite Ht, Ha, Hf; reflexivity.
Qed.

Lemma _parseResult_unresolved (tools : list Plugin) (result : str)
      (mA : captures) :
  thoughtCapture result <> [] ->
  exec re_action result = Some mA ->
  findTool tools (stripQuotes (trim (group mA 1))) = None ->
  _parseResult tools result
  = Throw (js "Tool not found: " ++ stripQuotes (trim (group mA 1))).
Proof.
  intros Ht Ha Hf; apply truthy_true in Ht.
  unfold _parseResult, thoughtCapture in *; cbv zeta.
  rewrite Ht, Ha, Hf; reflexivity.
Qed.

Lemma _parseResult_no_pair (tools : list Plugin) (result : str) :
  thoughtCapture result = [] \/ exec re_action result = None ->
  _parseResult tools result
  = Return (answer_ (group1OrEmpty (exec re_AI result))).
Proof.
  unfold _parseResult, thoughtCapture; cbv zeta; intros [H | H].
  - rewrite H; reflexivity.
  - rewrite H; destruct (truthy _); reflexivity.
Qed.

(** ** The non-conversational parser, branch by branch *)

Lemma parseNC_early (tools : list Plugin) (result : str) :
  positivityHigh result = true ->
  answerCapture result <> [] ->
  parseResultForNotConversational tools result
  = Return (answer_ (trim (answerCapture result))).
Proof.
  intros Hp Ha; apply truthy_true in Ha.
  unfold parseResultForNotConversational, answerCapture in *; cbv zeta.
  rewrite Hp, Ha; reflexivity.
Qed.

Lemma parseNC_resolved (tools : list Plugin) (result : str)
      (mA : captures) (tool : Plugin) :
  positivityHigh result && truthy (answerCapture result) = false ->
  thoughtCapture result <> [] ->
  exec re_actionNC result = Some mA ->
  stripQuotes (trim (group mA 1)) <> [] ->
  ~ occurs (js "None") (stripQuotes (trim (group mA 1))) ->
  findTool tools (stripQuotes (trim (group mA 1))) = Some tool ->
  parseResultForNotConversational tools result
  = Return (action_ {| thought := trim (thoughtCapture result);
                       plugin := project tool;
                       pluginInput :=
                         stripQuotes (trim (toolInputCaptureNC result)) |}).
Proof.
  intros Hp Ht Ha Hne Hnone Hf.
  apply truthy_true in Ht, Hne.
  unfold parseResultForNotConversational, answerCapture, thoughtCapture,
    toolInputCaptureNC in *; cbv zeta.
  rewrite Hp, Ht, Ha, Hne, Hf.
  unfold indexOf; rewrite (indexOfFrom_absent 0 _ _ Hnone); reflexivity.
Qed.

Lemma parseNC_unresolved (tools : list Plugin) (result : str)
      (mA : captures) :
  thoughtCapture result <> [] ->
  exec re_actionNC result = Some mA ->
  stripQuotes (trim (group mA 1)) <> [] ->
  ~ occurs (js "None") (stripQuotes (trim (group mA 1))) ->
  findTool tools (stripQuotes (trim (group mA 1))) = None ->
  parseResultForNotConversational tools result
  = if truthy (answerCapture result)
    then Return (answer_ (trim (answerCapture result)))
    else Throw (js "Tool " ++ stripQuotes (trim (group mA 1))
                  ++ js " not found").
Proof.
  intros Ht Ha Hne Hnone Hf.
  apply truthy_true in Ht, Hne.
  unfold parseResultForNotConversational, answerCapture, thoughtCapture in *.
  cbv zeta.
  destruct (truthy (group1OrEmpty (exec re_finalAnswer result))) eqn:Hans.
  - destruct (positivityHigh result); cbn [andb]; [reflexivity|].
    rewrite Ht, Ha, Hne, Hf.
    unfold indexOf; rewrite (indexOfFrom_absent 0 _ _ Hnone); reflexivity.
  - rewrite andb_false_r, Ht, Ha, Hne, Hf.
    unfold indexOf; rewrite (indexOfFrom_absent 0 _ _ Hnone); reflexivity.
Qed.

(** Without a usable action the answer extracted at the start is what
    comes back, whether or not the short-circuit fired. *)
Lemma parseNC_no_action (tools : list Plugin) (result : str) :
  (thoughtCapture result = [] \/
   exec re_actionNC result = None \/
   exists mA, exec re_actionNC result = Some mA /\
              (stripQuotes (trim (group mA 1)) = [] \/
               indexOf (stripQuotes (trim (group mA 1))) (js "None")
               <> (-1)%Z)) ->
  parseResultForNotConversational tools result
  = Return (answer_ (trim (answerCapture result))).
Proof.
  intros H.
  unfold parseResultForNotConversational, answerCapture, thoughtCapture in *.
  cbv zeta.
  destruct (positivityHigh result && _); [reflexivity|].
  destruct H as [H | [H | (mA & H & [Hn | Hn])]].
  - rewrite H; reflexivity.
  - rewrite H; destruct (truthy _); reflexivity.
  - rewrite H; destruct (truthy _); [|reflexivity].
    rewrite Hn; reflexivity.
  - rewrite H; destruct (truthy _); [|reflexivity].
    apply Z.eqb_neq in Hn; rewrite Hn, andb_false_r; reflexivity.
Qed.

Lemma _parseResult_action_inv (tools : list Plugin) (result : str)
      (a : Action) :
  _parseResult tools result = Return (action_ a) ->
  thoughtCapture result <> [] /\
  thought a = trim (thoughtCapture result) /\
  pluginInput a = stripQuotes (trim (toolInputCapture result)) /\
  exists mA, exec re_action result = Some mA /\
             findTool tools (stripQuotes (trim (group mA 1)))
             = Some (plugin a).
Proof.
  unfold _parseResult, thoughtCapture, toolInputCapture; cbv zeta.
  destruct (truthy (group1OrEmpty (exec re_thought result))) eqn:Ht;
    [|discriminate].
  destruct (exec re_action result) as [mA|]; [|discriminate].
  destruct (findTool tools _) as [tool|] eqn:Hf; [|discriminate].
  intros [= <-]; cbn [thought pluginInput plugin].
  apply truthy_true in Ht; eauto 7.
Qed.

Lemma _parseResult_throw_inv (tools : list Plugin) (result msg : str) :
  _parseResult tools result = Throw msg ->
  thoughtCapture result <> [] /\
  exists mA, exec re_action result = Some mA /\
             findTool tools (stripQuotes (trim (group mA 1))) = None /\
             msg = js "Tool not found: " ++ stripQuotes (trim (group mA 1)).
Proof.
  unfold _parseResult, thoughtCapture; cbv zeta.
  destruct (truthy (group1OrEmpty (exec re_thought result))) eqn:Ht;
    [|discriminate].
  destruct (exec re_action result) as [mA|]; [|discriminate].
  destruct (findTool tools _) as [tool|] eqn:Hf; [discriminate|].
  intros [= <-]; apply truthy_true in Ht; eauto.
Qed.

Lemma parseNC_throw_inv (tools : list Plugin) (result msg : str) :
  parseResultForNotConversational tools result = Throw msg ->
  thoughtCapture result <> [] /\ answerCapture result = [] /\
  exists mA, exec re_actionNC result = Some mA /\
             findTool tools (stripQuotes (trim (group mA 1))) = None /\
             msg = js "Tool " ++ stripQuotes (trim (group mA 1))
                     ++ js " not found".
Proof.
  unfold parseResultForNotConversational, thoughtCapture, answerCapture.
  cbv zeta.
  destruct (positivityHigh result && _); [discriminate|].
  destruct (truthy (group1OrEmpty (exec re_thought result))) eqn:Ht;
    [|discriminate].
  destruct (exec re_actionNC result) as [mA|]; [|discriminate].
  cbn [andb].
  destruct (truthy (stripQuotes _) && _); [|discriminate].
  destruct (findTool tools _) as [tool|] eqn:Hf; [discriminate|].
  destruct (truthy (group1OrEmpty (exec re_finalAnswer result))) eqn:Ha;
    [discriminate|].
  intros [= <-]; apply truthy_true in Ht; apply truthy_false in Ha; eauto 7.
Qed.

(** ** The claims about the parsers *)

(** C1, as stated, fails.  The completion below has a non-empty thought
    line and an action that names a listed tool, yet the
    non-conversational parser returns the answer (the early-answer rule
    fires), and the conversational parser keeps the quotes around the
    thought: the thought is trimmed, not quote-stripped. *)
Lemma C1_action_preempted_and_thought_keeps_quotes :
  thoughtCapture quotedThoughtWithAnswer = js "\x22Go\x22" /\
  option_map (fun m => stripQuotes (trim (group m 1)))
             (exec re_action quotedThoughtWithAnswer)
  = Some (nameForModel webSearch) /\
  option_map (fun m => stripQuotes (trim (group m 1)))
             (exec re_actionNC quotedThoughtWithAnswer)
  = Some (nameForModel webSearch) /\
  parseResultForNotConversational [webSearch] quotedThoughtWithAnswer
  = Return (answer_ (js "Done.")) /\
  _parseResult [webSearch] quotedThoughtWithAnswer
  = Return (action_ {| thought := js "\x22Go\x22";
                       plugin := webSearch;
                       pluginInput := js "x" |}) /\
  stripQuotes (trim (js "\x22Go\x22")) = js "Go".
Proof. repeat split. Qed.

(** C1, amended.  With a non-empty thought line and an extracted action
    string equal to the machine-facing name of a listed tool, the
    conversational parser returns an action decision: the tool is the
    one [find] picks for that name, the thought is the thought line
    trimmed, the tool input is the extracted span trimmed and then
    quote-stripped once.  The non-conversational parser does the same,
    with the six-field copy of the tool, provided the early-answer rule
    does not fire and the action string is non-empty and free of
    [None]. *)
Theorem C1_action_decision (tools : list Plugin) (result : str) (t : Plugin) :
  thoughtCapture result <> [] ->
  In t tools ->
  (forall mA,
      exec re_action result = Some mA ->
      stripQuotes (trim (group mA 1)) = nameForModel t ->
      exists tool,
        findTool tools (nameForModel t) = Some tool /\
        In tool tools /\ nameForModel tool = nameForModel t /\
        _parseResult tools result
        = Return (action_
                    {| thought := trim (thoughtCapture result);
                       plugin := tool;
                       pluginInput :=
                         stripQuotes (trim (toolInputCapture result)) |}))
  /\
  (forall mA,
      exec re_actionNC result = Some mA ->
      stripQuotes (trim (group mA 1)) = nameForModel t ->
      positivityHigh result && truthy (answerCapture result) = false ->
      nameForModel t <> [] ->
      ~ occurs (js "None") (nameForModel t) ->
      exists tool,
        findTool tools (nameForModel t) = Some tool /\
        In tool tools /\ nameForModel tool = nameForModel t /\
        parseResultForNotConversational tools result
        = Return (action_
                    {| thought := trim (thoughtCapture result);
                       plugin := project tool;
                       pluginInput :=
                         stripQuotes (trim (toolInputCaptureNC result)) |})).
Proof.
  intros Ht Hin.
  destruct (findTool_In _ _ Hin) as (tool & Hf & Htool & Hname).
  split.
  - intros mA Ha Heq; exists tool; repeat split; try assumption.
    apply _parseResult_resolved with (mA := mA); try assumption.
    rewrite Heq; exact Hf.
  - intros mA Ha Heq Hp Hne Hnone; exists tool; repeat split;
      try assumption.
    apply parseNC_resolved with (mA := mA); try assumption;
      rewrite Heq; assumption.
Qed.

(** The first example of the specification, for both parsers. *)
Lemma C1_action_decision_witness :
  _parseResult [webSearch] searchCompletion
  = Return (action_ {| thought := js "I should search.";
                       plugin := webSearch;
                       pluginInput := js "weather today" |}) /\
  parseResultForNotConversational [webSearch] searchCompletion
  = Return (action_ {| thought := js "I should search.";
                       plugin := webSearch;
                       pluginInput := js "weather today" |}).
Proof.
  assert (Ht : thoughtCapture searchCompletion <> [])
    by (vm_compute; discriminate).
  assert (Hin : In webSearch [webSearch]) by (left; reflexivity).
  destruct (C1_action_decision [webSearch] searchCompletion webSearch Ht Hin)
    as [Hc Hn].
  split.
  - destruct (Hc [(1, js "web_search")] eq_refl eq_refl)
      as (tool & Hf & _ & _ & Hr).
    vm_compute in Hf; injection Hf as <-.
    rewrite Hr; reflexivity.
  - assert (Hnone : ~ occurs (js "None") (nameForModel webSearch))
      by (apply afterFirst_None; reflexivity).
    assert (Hne : nameForModel webSearch <> []) by (vm_compute; discriminate).
    destruct (Hn [(2, [10%N]); (1, js " web_search")]
                 eq_refl eq_refl eq_refl Hne Hnone)
      as (tool & Hf & _ & _ & Hr).
    vm_compute in Hf; injection Hf as <-.
    rewrite Hr; reflexivity.
Defined.

(** C2, as stated, fails.  The pattern of the positivity score starts
    with a line feed, so a [Positivity:] marker that opens the completion
    is not seen: with a score of 9.5 and a non-empty final answer, the
    parser still returns the action. *)
Lemma C2_positivity_on_first_line_is_not_seen :
  startsWith (js "Positivity: 9.5") positivityOnFirstLine = true /\
  valueAtLeastNine (parseFloat (trim (js " 9.5"))) /\
  answerCapture positivityOnFirstLine = js " Done." /\
  exec re_positivity positivityOnFirstLine = None /\
  parseResultForNotConversational [webSearch] positivityOnFirstLine
  = Return (action_ {| thought := js "I should search.";
                       plugin := webSearch;
                       pluginInput := js "x" |}).
Proof.
  repeat split; try reflexivity.
  vm_compute; discriminate.
Qed.

(** C2, amended.  When the text after the first [Positivity:] marker
    that follows a line feed reads, on its line, as a decimal number of
    at least 9, and the candidate answer (the text on the line after the
    first [Final Answer:] marker, trimmed) is not empty, the
    non-conversational parser returns that candidate answer, whatever
    else the completion contains. *)
Theorem C2_confident_answer_short_circuits
        (tools : list Plugin) (result u v : str) :
  firstAfter (js "\nPositivity:") result u ->
  valueAtLeastNine (parseFloat (trim (line u))) ->
  firstAfter (js "Final Answer:") result v ->
  trim (line v) <> [] ->
  parseResultForNotConversational tools result
  = Return (answer_ (trim (line v))).
Proof.
  intros Hu H9 Hv Htrim.
  assert (Hne : line v <> [])
    by (intros E; apply Htrim; rewrite E; reflexivity).
  assert (Ha : answerCapture result = line v).
  { unfold answerCapture.
    change re_finalAnswer with (markerLine (js "Final Answer:")).
    apply capture_markerLine, Hv. }
  rewrite <- Ha; apply parseNC_early; [|rewrite Ha; exact Hne].
  unfold positivityHigh.
  change re_positivity with (markerLine (js "\nPositivity:")).
  apply afterFirst_Some in Hu; rewrite exec_markerLine, Hu.
  apply valueAtLeastNine_geNine, H9.
Qed.

(** The third example of the specification, followed by a well-formed
    thought and action. *)
Lemma C2_confident_answer_short_circuits_witness :
  parseResultForNotConversational [webSearch] confidentAnswerThenAction
  = Return (answer_ (js "Done.")).
Proof.
  apply (C2_confident_answer_short_circuits [webSearch]
           confidentAnswerThenAction
           (js " 9.5\nI should search.\nAction: web_search\nAction Input: x")
           (js " Done.\nPositivity: 9.5\nI should search.\nAction: web_search\nAction Input: x")).
  - apply afterFirst_Some; reflexivity.
  - vm_compute; split; [reflexivity | discriminate].
  - apply afterFirst_Some; reflexivity.
  - vm_compute; discriminate.
Defined.

(** C3, as stated, fails.  The thought is not empty, the extracted
    action string [None] names no tool and there is no final answer,
    yet the non-conversational parser raises nothing: it returns the
    empty answer.  The conversational parser raises. *)
Lemma C3_placeholder_action_raises_nothing :
  thoughtCapture placeholderAction = js "think" /\
  option_map (fun m => stripQuotes (trim (group m 1)))
             (exec re_actionNC placeholderAction) = Some (js "None") /\
  findTool [webSearch] (js "None") = None /\
  answerCapture placeholderAction = [] /\
  parseResultForNotConversational [webSearch] placeholderAction
  = Return (answer_ []) /\
  _parseResult [webSearch] placeholderAction
  = Throw (js "Tool not found: None").
Proof. repeat split. Qed.

(** C3, amended.  With a non-empty thought and an extracted action
    string that names no listed tool, the conversational parser raises
    the tool-not-found error.  The non-conversational parser, when that
    action string is non-empty and free of [None], raises it when
    nothing follows [Final Answer:] on its line (or the marker is
    absent), and returns the candidate answer (that text, trimmed) when
    the candidate is not empty. *)
Theorem C3_unresolved_tool (tools : list Plugin) (result : str) :
  thoughtCapture result <> [] ->
  (forall mA,
      exec re_action result = Some mA ->
      (forall t, In t tools ->
                 nameForModel t <> stripQuotes (trim (group mA 1))) ->
      _parseResult tools result
      = Throw (js "Tool not found: " ++ stripQuotes (trim (group mA 1))))
  /\
  (forall mA,
      exec re_actionNC result = Some mA ->
      (forall t, In t tools ->
                 nameForModel t <> stripQuotes (trim (group mA 1))) ->
      stripQuotes (trim (group mA 1)) <> [] ->
      ~ occurs (js "None") (stripQuotes (trim (group mA 1))) ->
      (answerCapture result = [] ->
       parseResultForNotConversational tools result
       = Throw (js "Tool " ++ stripQuotes (trim (group mA 1))
                  ++ js " not found")) /\
      (trim (answerCapture result) <> [] ->
       parseResultForNotConversational tools result
       = Return (answer_ (trim (answerCapture result))))).
Proof.
  intros Ht; split.
  - intros mA Ha Hno.
    apply _parseResult_unresolved; try assumption.
    apply findTool_None, Hno.
  - intros mA Ha Hno Hne Hnone.
    apply findTool_None in Hno.
    rewrite (parseNC_unresolved tools result mA Ht Ha Hne Hnone Hno).
    split; intros H.
    + apply truthy_false in H; rewrite H; reflexivity.
    + assert (Hans : answerCapture result <> [])
        by (intros E; apply H; rewrite E; reflexivity).
      apply truthy_true in Hans; rewrite Hans; reflexivity.
Qed.

(** The fourth example of the specification. *)
Lemma C3_unresolved_tool_witness :
  _parseResult [webSearch] unknownToolCompletion
  = Throw (js "Tool not found: unknown_tool") /\
  parseResultForNotConversational [webSearch] unknownToolCompletion
  = Throw (js "Tool unknown_tool not found").
Proof.
  assert (Ht : thoughtCapture unknownToolCompletion <> [])
    by (vm_compute; discriminate).
  assert (Hno : forall t, In t [webSearch] ->
                          nameForModel t <> js "unknown_tool").
  { intros t [<- | []]; vm_compute; discriminate. }
  destruct (C3_unresolved_tool [webSearch] unknownToolCompletion Ht)
    as [Hc Hn].
  split.
  - exact (Hc [(1, js "unknown_tool")] eq_refl Hno).
  - assert (Hne : js "unknown_tool" <> []) by (vm_compute; discriminate).
    assert (Hnone : ~ occurs (js "None") (js "unknown_tool"))
      by (apply afterFirst_None; reflexivity).
    destruct (Hn [(2, [10%N]); (1, js " unknown_tool")]
                 eq_refl Hno Hne Hnone) as [Hthrow _].
    exact (Hthrow eq_refl).
Defined.

(** C4.  A completion without a thought/action pair and without the
    answer marker of the parser yields the empty answer; this covers
    every completion in which [Action:] does not occur at all.  The only
    error either parser raises is the tool-not-found error, for a
    non-empty thought with an extracted action that names no listed
    tool. *)
Theorem C4_malformed_completion (tools : list Plugin) (result : str) :
  (thoughtCapture result = [] \/ exec re_action result = None ->
   ~ occurs (js "AI:") result ->
   _parseResult tools result = Return (answer_ [])) /\
  (thoughtCapture result = [] \/ exec re_actionNC result = None ->
   ~ occurs (js "Final Answer:") result ->
   parseResultForNotConversational tools result = Return (answer_ [])) /\
  (~ occurs (js "Action:") result ->
   thoughtCapture result = [] /\
   exec re_action result = None /\ exec re_actionNC result = None) /\
  (forall msg,
      _parseResult tools result = Throw msg ->
      thoughtCapture result <> [] /\
      exists mA,
        exec re_action result = Some mA /\
        findTool tools (stripQuotes (trim (group mA 1))) = None /\
        msg = js "Tool not found: " ++ stripQuotes (trim (group mA 1))) /\
  (forall msg,
      parseResultForNotConversational tools result = Throw msg ->
      thoughtCapture result <> [] /\ answerCapture result = [] /\
      exists mA,
        exec re_actionNC result = Some mA /\
        findTool tools (stripQuotes (trim (group mA 1))) = None /\
        msg = js "Tool " ++ stripQuotes (trim (group mA 1))
                ++ js " not found").
Proof.
  split; [|split; [|split; [|split]]].
  - intros Hpair Hai.
    rewrite _parseResult_no_pair by exact Hpair.
    unfold re_AI; rewrite exec_literal_absent by exact Hai; reflexivity.
  - intros Hpair Hfa.
    rewrite parseNC_no_action by tauto.
    unfold answerCapture, re_finalAnswer.
    rewrite exec_literal_absent by exact Hfa; reflexivity.
  - intros H; split; [|split].
    + unfold thoughtCapture.
      change re_thought with (lineBefore (js "Action:")).
      rewrite exec_lineBefore_absent; [reflexivity|].
      intros Ho; apply H.
      exact (occurs_suffix [10%N] (js "Action:") result Ho).
    + apply exec_literal_absent; intros Ho; apply H.
      exact (occurs_prefix (js "Action:") [32%N] result Ho).
    + apply exec_literal_absent, H.
  - intros msg H; apply _parseResult_throw_inv, H.
  - intros msg H; apply parseNC_throw_inv, H.
Qed.

Lemma C4_malformed_completion_witness :
  _parseResult [webSearch] (js "Hello there.") = Return (answer_ []) /\
  parseResultForNotConversational [webSearch] (js "Hello there.")
  = Return (answer_ []).
Proof.
  destruct (C4_malformed_completion [webSearch] (js "Hello there."))
    as (Hc & Hn & Hno & _).
  assert (H : ~ occurs (js "Action:") (js "Hello there."))
    by (apply afterFirst_None; reflexivity).
  destruct (Hno H) as (Ht & _ & _).
  split; [apply Hc | apply Hn]; try (left; exact Ht);
    apply afterFirst_None; reflexivity.
Defined.

(** C5, as stated, fails.  Of a thought of two lines only the last one
    is extracted, not everything that precedes the [Action:] marker. *)
Lemma C5_only_last_line_of_thought :
  textBefore (js "Action:") twoLineThought = js "line1\nline2\n" /\
  trim (textBefore (js "Action:") twoLineThought) = js "line1\nline2" /\
  thoughtCapture twoLineThought = js "line2" /\
  _parseResult [webSearch] twoLineThought
  = Return (action_ {| thought := js "line2";
                       plugin := webSearch;
                       pluginInput := [] |}) /\
  js "line2" <> trim (textBefore (js "Action:") twoLineThought).
Proof. repeat split; try reflexivity; discriminate. Qed.

(** C5, amended.  The extracted thought is the single line that ends at
    the first occurrence of a line feed followed by [Action:]: when the
    completion reads [pre], line [ln], that marker, [tail], with [pre]
    empty or ending in a line terminator, the thought is [ln], and an
    action decision of the conversational parser carries [ln] trimmed. *)
Theorem C5_thought_is_last_line_before_marker
        (tools : list Plugin) (result pre ln tail : str) :
  result = pre ++ ln ++ js "\nAction:" ++ tail ->
  firstAfter (js "\nAction:") result tail ->
  endsLine pre ->
  singleLine ln ->
  thoughtCapture result = ln /\
  forall a, _parseResult tools result = Return (action_ a) ->
            thought a = trim ln.
Proof.
  intros Hres (a0 & Ha0 & Hmin) Hpre Hln.
  assert (Ea : a0 = pre ++ ln).
  { rewrite Hres in Ha0.
    rewrite !app_assoc in Ha0; apply app_inv_tail in Ha0.
    apply app_inv_tail in Ha0; symmetry; exact Ha0. }
  assert (Ht : thoughtCapture result = ln).
  { unfold thoughtCapture.
    change re_thought with (lineBefore (js "Action:")).
    rewrite Hres.
    change (js "\nAction:") with (10%N :: js "Action:") in *.
    rewrite exec_lineBefore_first; [reflexivity | assumption..|].
    intros a u Heq; rewrite <- Ea; apply (Hmin a u).
    rewrite Hres; exact Heq. }
  split; [exact Ht|].
  intros a Hr; apply _parseResult_action_inv in Hr.
  destruct Hr as (_ & Hr & _); rewrite Hr, Ht; reflexivity.
Qed.

Lemma C5_thought_is_last_line_before_marker_witness :
  thoughtCapture twoLineThought = js "line2" /\
  forall a, _parseResult [webSearch] twoLineThought = Return (action_ a) ->
            thought a = js "line2".
Proof.
  apply (C5_thought_is_last_line_before_marker [webSearch] twoLineThought
           (js "line1\n") (js "line2") (js " web_search")).
  - reflexivity.
  - apply afterFirst_Some; reflexivity.
  - right; exists (js "line1"), 10%N; split; reflexivity.
  - repeat constructor.
Defined.

(** C9.  When the action string that the non-conversational parser
    extracts (trimmed, quote-stripped) contains [None], the parser
    returns the answer decision built from the final-answer extraction:
    no action decision and no error. *)
Theorem C9_placeholder_action_is_no_action
        (tools : list Plugin) (result : str) (mA : captures) :
  exec re_actionNC result = Some mA ->
  occurs (js "None") (stripQuotes (trim (group mA 1))) ->
  parseResultForNotConversational tools result
  = Return (answer_ (trim (answerCapture result))).
Proof.
  intros Ha Hnone; apply parseNC_no_action.
  right; right; exists mA; split; [exact Ha|].
  right; apply indexOf_occurs, Hnone.
Qed.

Lemma C9_placeholder_action_is_no_action_witness :
  parseResultForNotConversational [webSearch]
    (js "think\nAction: None yet\nFinal Answer: 42")
  = Return (answer_ (js "42")).
Proof.
  apply (C9_placeholder_action_is_no_action [webSearch]
           (js "think\nAction: None yet\nFinal Answer: 42")
           [(2, [10%N]); (1, js " None yet")]).
  - reflexivity.
  - exists [], (js " yet"); reflexivity.
Defined.

(** C10.  When the conversational parser has a non-empty thought and an
    action that resolves to a listed tool, and [Action Input:] occurs
    nowhere in the completion, it returns an action decision whose tool
    input is the empty string. *)
Theorem C10_missing_action_input
        (tools : list Plugin) (result : str) (mA : captures)
        (tool : Plugin) :
  thoughtCapture result <> [] ->
  exec re_action result = Some mA ->
  findTool tools (stripQuotes (trim (group mA 1))) = Some tool ->
  ~ occurs (js "Action Input:") result ->
  _parseResult tools result
  = Return (action_ {| thought := trim (thoughtCapture result);
                       plugin := tool;
                       pluginInput := [] |}).
Proof.
  intros Ht Ha Hf Hno.
  rewrite (_parseResult_resolved tools result mA tool Ht Ha Hf).
  unfold toolInputCapture, re_actionInput.
  rewrite exec_literal_absent; [reflexivity|].
  intros Ho; apply Hno.
  exact (occurs_prefix (js "Action Input:") [32%N] result Ho).
Qed.

Lemma C10_missing_action_input_witness :
  _parseResult [webSearch] (js "I should search.\nAction: web_search\n")
  = Return (action_ {| thought := js "I should search.";
                       plugin := webSearch;
                       pluginInput := [] |}).
Proof.
  apply (C10_missing_action_input [webSearch]
           (js "I should search.\nAction: web_search\n")
           [(1, js "web_search")] webSearch).
  - vm_compute; discriminate.
  - reflexivity.
  - reflexivity.
  - apply afterFirst_None; reflexivity.
Defined.

(** * Further properties of the code *)

(** ** The pattern with a line end *)

Lemma rmatch_lineEnd_ordinary (c : char) (s : str) (caps : captures) k :
  isLineTerminator c = false -> rmatch re_lineEnd (c :: s) caps k = None.
Proof.
  intros Hc; unfold re_lineEnd; cbn [rmatch].
  destruct (10 =? c)%N eqn:E; [|reflexivity].
  apply N.eqb_eq in E; subst c; discriminate.
Qed.

Lemma matchHere_markerLineEnd (p s : str) :
  matchHere (markerLineEnd p) s
  = if startsWith p s then
      match afterLine (skipn (length p) s) with
      | [] => Some [(2, []); (1, line (skipn (length p) s))]
      | d :: _ =>
          if (10 =? d)%N
          then Some [(2, [10%N]); (1, line (skipn (length p) s))]
          else None
      end
    else None.
Proof.
  unfold matchHere, markerLineEnd; cbn [rmatch]; rewrite rmatch_Str.
  destruct (startsWith p s); [|reflexivity].
  generalize (skipn (length p) s); intros u.
  rewrite dotstar_barrier
    by (intros c s' Hc; apply rmatch_lineEnd_ordinary, Hc).
  rewrite firstn_line.
  destruct (afterLine u) as [|d w]; [reflexivity|].
  unfold re_lineEnd; cbn [rmatch].
  destruct (10 =? d)%N eqn:E; [|reflexivity].
  apply N.eqb_eq in E; subst d.
  cbn [length]; rewrite Nat.sub_succ_l, Nat.sub_diag by apply Nat.le_refl.
  reflexivity.
Qed.

Lemma exec_markerLineEnd_first (p s u : str) :
  afterFirst p s = Some u ->
  breaksOrEnds (afterLine u) ->
  group1OrEmpty (exec (markerLineEnd p) s) = line u /\
  exec (markerLineEnd p) s <> None.
Proof.
  intros Hu Hend; revert Hu; induction s as [|c s IH].
  - simpl afterFirst; rewrite exec_eq, matchHere_markerLineEnd.
    destruct (startsWith p []); [|discriminate].
    intros [= <-].
    destruct Hend as [-> | (w & ->)]; [split; [reflexivity | discriminate]|].
    rewrite N.eqb_refl; split; [reflexivity | discriminate].
  - simpl afterFirst; rewrite exec_eq, matchHere_markerLineEnd.
    destruct (startsWith p (c :: s)); [|exact IH].
    intros [= <-].
    destruct Hend as [-> | (w & ->)]; [split; [reflexivity | discriminate]|].
    rewrite N.eqb_refl; split; [reflexivity | discriminate].
Qed.

Lemma exec_markerLineEnd_line (p s : str) (m : captures) :
  exec (markerLineEnd p) s = Some m -> exists u, group m 1 = line u.
Proof.
  intros H; apply exec_sound in H; destruct H as (a & v & _ & H).
  rewrite matchHere_markerLineEnd in H.
  destruct (startsWith p v); [|discriminate].
  destruct (afterLine _) as [|d w].
  - injection H as <-; eexists; reflexivity.
  - destruct (10 =? d)%N; [|discriminate].
    injection H as <-; eexists; reflexivity.
Qed.

(** ** Single lines *)

Lemma singleLine_trimStart (s : str) : singleLine s -> singleLine (trimStart s).
Proof.
  induction 1 as [|c s Hc Hs IH]; simpl; [constructor|].
  destruct (isTrimmable c); [exact IH | constructor; assumption].
Qed.

Lemma singleLine_trim (s : str) : singleLine s -> singleLine (trim s).
Proof.
  intros H; unfold trim, trimEnd.
  apply Forall_rev, singleLine_trimStart, Forall_rev, singleLine_trimStart, H.
Qed.

Lemma singleLine_strip (c : char) (s : str) :
  singleLine s -> singleLine (strip s c).
Proof.
  intros H; destruct (strip_cases c s) as [[_ ->] | (pre & a & b & _ & Ha & ->)];
    assumption.
Qed.

Lemma singleLine_stripQuotes (s : str) :
  singleLine s -> singleLine (stripQuotes s).
Proof. intros H; apply singleLine_strip, singleLine_strip, H. Qed.

Lemma singleLine_markerLine (p s : str) :
  singleLine (group1OrEmpty (exec (markerLine p) s)).
Proof.
  rewrite exec_markerLine; destruct (afterFirst p s); simpl;
    [apply line_singleLine | constructor].
Qed.

Lemma singleLine_markerLineEnd (p s : str) :
  singleLine (group1OrEmpty (exec (markerLineEnd p) s)).
Proof.
  destruct (exec (markerLineEnd p) s) as [m|] eqn:E; simpl; [|constructor].
  destruct (exec_markerLineEnd_line _ _ _ E) as [u ->]; apply line_singleLine.
Qed.

Lemma singleLine_lineBefore (p s : str) :
  singleLine (group1OrEmpty (exec (lineBefore p) s)).
Proof.
  destruct (exec (lineBefore p) s) as [m|] eqn:E; simpl; [|constructor].
  apply exec_sound in E; destruct E as (a & u & _ & E).
  rewrite matchHere_lineBefore in E.
  destruct (startsWith _ _); [|discriminate].
  injection E as <-; apply line_singleLine.
Qed.

Lemma singleLine_thoughtCapture (result : str) :
  singleLine (thoughtCapture result).
Proof. exact (singleLine_lineBefore (js "Action:") result). Qed.

(** ** Inversion of the decisions *)

Lemma _parseResult_answer_inv (tools : list Plugin) (result x : str) :
  _parseResult tools result = Return (answer_ x) ->
  x = group1OrEmpty (exec re_AI result) /\
  (thoughtCapture result = [] \/ exec re_action result = None).
Proof.
  unfold _parseResult, thoughtCapture; cbv zeta.
  destruct (truthy (group1OrEmpty (exec re_thought result))) eqn:Ht.
  - destruct (exec re_action result) as [mA|].
    + destruct (findTool tools _); discriminate.
    + intros [= <-]; auto.
  - apply truthy_false in Ht; intros [= <-]; auto.
Qed.

Lemma parseNC_answer_inv (tools : list Plugin) (result x : str) :
  parseResultForNotConversational tools result = Return (answer_ x) ->
  x = trim (answerCapture result).
Proof.
  unfold parseResultForNotConversational, answerCapture; cbv zeta.
  destruct (positivityHigh result && _); [intros [= <-]; reflexivity|].
  destruct (truthy (group1OrEmpty (exec re_thought result)) && _ && _).
  - destruct (findTool tools _).
    + discriminate.
    + destruct (truthy _); [intros [= <-]; reflexivity | discriminate].
  - intros [= <-]; reflexivity.
Qed.

Lemma parseNC_action_inv (tools : list Plugin) (result : str) (a : Action) :
  parseResultForNotConversational tools result = Return (action_ a) ->
  positivityHigh result && truthy (answerCapture result) = false /\
  thoughtCapture result <> [] /\
  thought a = trim (thoughtCapture result) /\
  pluginInput a = stripQuotes (trim (toolInputCaptureNC result)) /\
  exists mA tool,
    exec re_actionNC result = Some mA /\
    stripQuotes (trim (group mA 1)) <> [] /\
    indexOf (stripQuotes (trim (group mA 1))) (js "None") = (-1)%Z /\
    findTool tools (stripQuotes (trim (group mA 1))) = Some tool /\
    plugin a = project tool.
Proof.
  unfold parseResultForNotConversational, answerCapture, thoughtCapture,
    toolInputCaptureNC; cbv zeta.
  destruct (positivityHigh result && _) eqn:Hp; [discriminate|].
  destruct (truthy (group1OrEmpty (exec re_thought result))) eqn:Ht;
    [|discriminate].
  destruct (exec re_actionNC result) as [mA|]; [|discriminate].
  cbn [andb].
  destruct (truthy (stripQuotes (trim (group mA 1)))) eqn:Hne;
    [|discriminate].
  cbn [andb].
  destruct (indexOf _ _ =? -1)%Z eqn:Hi; [|discriminate].
  destruct (findTool tools _) as [tool|] eqn:Hf.
  - intros [= <-]; cbn [thought pluginInput plugin].
    apply truthy_true in Ht, Hne; apply Z.eqb_eq in Hi.
    repeat split; try assumption.
    exists mA, tool; auto.
  - destruct (truthy _); discriminate.
Qed.

(** ** What the parsers return *)

(** X5.  An action decision of the conversational parser always carries
    a tool of the supplied list (so none is returned for an empty list),
    and that tool is named by the extracted action string. *)
Theorem X5_action_tool_is_listed
        (tools : list Plugin) (result : str) (a : Action) :
  _parseResult tools result = Return (action_ a) ->
  In (plugin a) tools /\ tools <> [] /\
  exists mA, exec re_action result = Some mA /\
             nameForModel (plugin a) = stripQuotes (trim (group mA 1)).
Proof.
  intros H; apply _parseResult_action_inv in H.
  destruct H as (_ & _ & _ & mA & Ha & Hf).
  apply findTool_Some in Hf; destruct Hf as [Hin Hname].
  split; [exact Hin|]; split; [|exists mA; auto].
  intros ->; destruct Hin.
Qed.

Lemma X5_action_tool_is_listed_witness :
  In webSearch [webSearch] /\ [webSearch] <> [] /\
  exists mA, exec re_action searchCompletion = Some mA /\
             nameForModel webSearch = stripQuotes (trim (group mA 1)).
Proof.
  exact (X5_action_tool_is_listed [webSearch] searchCompletion
           {| thought := js "I should search.";
              plugin := webSearch;
              pluginInput := js "weather today" |} eq_refl).
Defined.

(** X6.  An action decision of the non-conversational parser carries
    the six-field copy of a listed tool whose name is the extracted
    action string; that name is not empty and does not contain [None],
    so a tool with such a name is never selected. *)
Theorem X6_action_tool_is_listed_and_not_None
        (tools : list Plugin) (result : str) (a : Action) :
  parseResultForNotConversational tools result = Return (action_ a) ->
  exists tool mA,
    In tool tools /\ plugin a = project tool /\
    exec re_actionNC result = Some mA /\
    nameForModel tool = stripQuotes (trim (group mA 1)) /\
    nameForModel tool <> [] /\
    ~ occurs (js "None") (nameForModel tool).
Proof.
  intros H; apply parseNC_action_inv in H.
  destruct H as (_ & _ & _ & _ & mA & tool & Ha & Hne & Hi & Hf & Hp).
  apply findTool_Some in Hf; destruct Hf as [Hin Hname].
  exists tool, mA; rewrite Hname; repeat split; try assumption.
  intros Ho; exact (indexOf_occurs _ _ Ho Hi).
Qed.

Lemma X6_action_tool_is_listed_and_not_None_witness :
  exists tool mA,
    In tool [webSearch] /\ webSearch = project tool /\
    exec re_actionNC searchCompletion = Some mA /\
    nameForModel tool = stripQuotes (trim (group mA 1)) /\
    nameForModel tool <> [] /\
    ~ occurs (js "None") (nameForModel tool).
Proof.
  exact (X6_action_tool_is_listed_and_not_None [webSearch] searchCompletion
           {| thought := js "I should search.";
              plugin := webSearch;
              pluginInput := js "weather today" |} eq_refl).
Defined.

(** X7.  Whatever the completion, no string of a returned decision
    holds a line terminator: thought, tool input and answer are each
    taken from a single line. *)
Theorem X7_decisions_are_single_line
        (tools : list Plugin) (result : str) (r : ReactAgentResult) :
  _parseResult tools result = Return r \/
  parseResultForNotConversational tools result = Return r ->
  singleLineDecision r.
Proof.
  intros [H | H]; destruct r as [a | x]; cbn [singleLineDecision].
  - apply _parseResult_action_inv in H.
    destruct H as (_ & -> & -> & _); split.
    + apply singleLine_trim, singleLine_thoughtCapture.
    + apply singleLine_stripQuotes, singleLine_trim.
      exact (singleLine_markerLine (js "Action Input: ") result).
  - apply _parseResult_answer_inv in H; destruct H as [-> _].
    exact (singleLine_markerLine (js "AI:") result).
  - apply parseNC_action_inv in H.
    destruct H as (_ & _ & -> & -> & _); split.
    + apply singleLine_trim, singleLine_thoughtCapture.
    + apply singleLine_stripQuotes, singleLine_trim.
      exact (singleLine_markerLineEnd (js "Action Input: ") result).
  - apply parseNC_answer_inv in H; subst x.
    apply singleLine_trim.
    exact (singleLine_markerLine (js "Final Answer:") result).
Qed.

Lemma X7_decisions_are_single_line_witness :
  singleLineDecision (answer_ (js "first line")).
Proof.
  apply (X7_decisions_are_single_line [webSearch]
           (js "Final Answer: first line\nsecond line")).
  right; reflexivity.
Defined.

(** X8.  The answer of the non-conversational parser is the rest of the
    line after the first [Final Answer:], trimmed: later lines of the
    answer are never returned.  It is what the parser returns whenever
    no line feed followed by [Action:] occurs in the completion. *)
Theorem X8_final_answer_is_first_line
        (tools : list Plugin) (result v : str) :
  firstAfter (js "Final Answer:") result v ->
  (forall x,
      parseResultForNotConversational tools result = Return (answer_ x) ->
      x = trim (line v)) /\
  (~ occurs (js "\nAction:") result ->
   parseResultForNotConversational tools result
   = Return (answer_ (trim (line v)))).
Proof.
  intros Hv.
  assert (Ha : answerCapture result = line v)
    by exact (capture_markerLine (js "Final Answer:") result v Hv).
  split.
  - intros x H; apply parseNC_answer_inv in H; rewrite H, Ha; reflexivity.
  - intros Hno; rewrite <- Ha; apply parseNC_no_action; left.
    unfold thoughtCapture.
    change re_thought with (lineBefore (js "Action:")).
    rewrite exec_lineBefore_absent; [reflexivity | exact Hno].
Qed.

Lemma X8_final_answer_is_first_line_witness :
  parseResultForNotConversational [webSearch]
    (js "Final Answer: first line\nsecond line")
  = Return (answer_ (js "first line")).
Proof.
  apply (X8_final_answer_is_first_line [webSearch]
           (js "Final Answer: first line\nsecond line")
           (js " first line\nsecond line")).
  - apply afterFirst_Some; reflexivity.
  - apply afterFirst_None; reflexivity.
Defined.

(** X9.  The answer of the conversational parser is the rest of the
    line after the first [AI:], as it stands: it is not trimmed, so the
    space after the marker stays.  It is what the parser returns
    whenever no line feed followed by [Action:] occurs. *)
Theorem X9_conversational_answer_is_untrimmed
        (tools : list Plugin) (result u : str) :
  firstAfter (js "AI:") result u ->
  (forall x, _parseResult tools result = Return (answer_ x) -> x = line u) /\
  (~ occurs (js "\nAction:") result ->
   _parseResult tools result = Return (answer_ (line u))).
Proof.
  intros Hu.
  assert (Ha : group1OrEmpty (exec re_AI result) = line u)
    by exact (capture_markerLine (js "AI:") result u Hu).
  split.
  - intros x H; apply _parseResult_answer_inv in H.
    destruct H as [-> _]; exact Ha.
  - intros Hno; rewrite <- Ha; apply _parseResult_no_pair; left.
    unfold thoughtCapture.
    change re_thought with (lineBefore (js "Action:")).
    rewrite exec_lineBefore_absent; [reflexivity | exact Hno].
Qed.

(** The second example of the specification. *)
Lemma X9_conversational_answer_is_untrimmed_witness :
  _parseResult [webSearch] (js "AI: The capital of France is Paris.")
  = Return (answer_ (js " The capital of France is Paris.")).
Proof.
  apply (X9_conversational_answer_is_untrimmed [webSearch]
           (js "AI: The capital of France is Paris.")
           (js " The capital of France is Paris.")).
  - apply afterFirst_Some; reflexivity.
  - apply afterFirst_None; reflexivity.
Defined.

(** X10.  When the first line feed followed by [Action:] comes directly
    after a line terminator or opens the completion (a blank line, or a
    line that ends in CR LF), the thought is empty and neither parser
    returns an action or raises: both return their answer decision. *)
Theorem X10_empty_thought_line_means_no_action
        (tools : list Plugin) (result pre tail : str) :
  result = pre ++ js "\nAction:" ++ tail ->
  firstAfter (js "\nAction:") result tail ->
  endsLine pre ->
  thoughtCapture result = [] /\
  _parseResult tools result
  = Return (answer_ (group1OrEmpty (exec re_AI result))) /\
  parseResultForNotConversational tools result
  = Return (answer_ (trim (answerCapture result))).
Proof.
  intros Hres (a0 & Ha0 & Hmin) Hpre.
  assert (Ea : a0 = pre).
  { rewrite Hres in Ha0; apply app_inv_tail in Ha0; symmetry; exact Ha0. }
  assert (Ht : thoughtCapture result = []).
  { unfold thoughtCapture.
    change re_thought with (lineBefore (js "Action:")).
    rewrite Hres.
    change (js "\nAction:") with (10%N :: js "Action:") in *.
    change (pre ++ (10%N :: js "Action:") ++ tail)
      with (pre ++ [] ++ (10%N :: js "Action:") ++ tail).
    rewrite exec_lineBefore_first; [reflexivity | assumption | constructor |].
    intros a u Heq; rewrite app_nil_r, <- Ea; apply (Hmin a u).
    rewrite Hres; exact Heq. }
  split; [exact Ht|]; split.
  - apply _parseResult_no_pair; left; exact Ht.
  - apply parseNC_no_action; left; exact Ht.
Qed.

Lemma X10_empty_thought_line_means_no_action_witness :
  thoughtCapture (js "think\r\nAction: web_search\r\n") = [] /\
  _parseResult [webSearch] (js "think\r\nAction: web_search\r\n")
  = Return (answer_ []) /\
  parseResultForNotConversational [webSearch]
    (js "think\r\nAction: web_search\r\n")
  = Return (answer_ []).
Proof.
  apply (X10_empty_thought_line_means_no_action [webSearch]
           (js "think\r\nAction: web_search\r\n")
           (js "think\r") (js " web_search\r\n")).
  - reflexivity.
  - apply afterFirst_Some; reflexivity.
  - right; exists (js "think"), 13%N; split; reflexivity.
Defined.

(** ** Tool resolution *)

(** X13.  When the machine-facing names of the listed tools are
    pairwise distinct, looking up the name of a listed tool finds that
    very tool. *)
Theorem X13_findTool_unique_names (tools : list Plugin) (t : Plugin) :
  NoDup (map nameForModel tools) ->
  In t tools ->
  findTool tools (nameForModel t) = Some t.
Proof.
  induction tools as [|t0 tl IH]; intros Hnd Hin; [destruct Hin|].
  inversion Hnd as [|? ? Hnot Hnd']; subst.
  unfold findTool; cbn [find].
  destruct (str_eqb (nameForModel t0) (nameForModel t)) eqn:E.
  - apply str_eqb_eq in E.
    destruct Hin as [-> | Hin]; [reflexivity|].
    exfalso; apply Hnot; rewrite E; apply in_map, Hin.
  - destruct Hin as [-> | Hin]; [rewrite str_eqb_refl in E; discriminate|].
    apply IH; assumption.
Qed.

(** Two tools with distinct names: each name finds its own tool, also
    the one that stands second in the list. *)
Lemma X13_findTool_unique_names_witness :
  findTool [webSearch; calculator] (nameForModel calculator)
  = Some calculator /\
  findTool [webSearch; calculator] (nameForModel webSearch)
  = Some webSearch.
Proof.
  assert (Hnd : NoDup (map nameForModel [webSearch; calculator])).
  { constructor; [|constructor; [intros [] | constructor]].
    intros [H | []]; vm_compute in H; discriminate. }
  split.
  - apply (X13_findTool_unique_names [webSearch; calculator] calculator Hnd).
    right; left; reflexivity.
  - apply (X13_findTool_unique_names [webSearch; calculator] webSearch Hnd).
    left; reflexivity.
Defined.

(** ** What [strip] keeps *)

Section QuoteSegment.

Variable A : Type.
Variable c : char.
Variable k : str -> option A.

(** The continuation only accepts a text that starts with [c]. *)
Hypothesis k_needs_quote :
  forall s, match s with d :: _ => (c =? d)%N | [] => false end = false ->
            k s = None.

Lemma dotstar_no_quote (b : str) :
  isLineTerminator c = false -> ~ In c (line b) -> dotstar b k = None.
Proof.
  intros Hc; induction b as [|d b IH]; intros Hb; simpl.
  - apply k_needs_quote; reflexivity.
  - simpl in Hb; destruct (isLineTerminator d) eqn:Hd.
    + apply k_needs_quote.
      destruct (c =? d)%N eqn:E; [|reflexivity].
      apply N.eqb_eq in E; congruence.
    + rewrite IH by (intros H; apply Hb; right; exact H).
      apply k_needs_quote.
      destruct (c =? d)%N eqn:E; [|reflexivity].
      apply N.eqb_eq in E; exfalso; apply Hb; left; auto.
Qed.

(** Greedy matching gives back characters down to the last [c] of the
    line. *)
Lemma dotstar_last_quote (a b : str) :
  isLineTerminator c = false ->
  singleLine a -> ~ In c (line b) -> k (c :: b) <> None ->
  dotstar (a ++ c :: b) k = k (c :: b).
Proof.
  intros Hc Ha Hb Hk; induction Ha as [|x a Hx Ha IH]; simpl.
  - rewrite Hc, dotstar_no_quote by assumption; reflexivity.
  - rewrite Hx, IH; destruct (k (c :: b)); [reflexivity | contradiction].
Qed.

End QuoteSegment.

Lemma matchHere_strip_segment (c : char) (a b : str) :
  isLineTerminator c = false ->
  singleLine a -> ~ In c (line b) ->
  matchHere (re_strip c) (c :: a ++ c :: b) = Some [(1, a)].
Proof.
  intros Hc Ha Hb; unfold matchHere, re_strip; cbn [rmatch].
  rewrite N.eqb_refl, dotstar_last_quote; try assumption.
  - rewrite N.eqb_refl, firstn_app_exact; reflexivity.
  - intros [|d s] H; [reflexivity | rewrite H; reflexivity].
  - rewrite N.eqb_refl; discriminate.
Qed.

Lemma exec_strip_skip (c : char) (pre u : str) :
  ~ In c pre -> exec (re_strip c) (pre ++ u) = exec (re_strip c) u.
Proof.
  induction pre as [|x pre IH]; intros Hpre; [reflexivity|].
  change ((x :: pre) ++ u) with (x :: (pre ++ u)).
  rewrite exec_eq; unfold matchHere at 1, re_strip at 1; cbn [rmatch].
  destruct (c =? x)%N eqn:E.
  - apply N.eqb_eq in E; exfalso; apply Hpre; left; auto.
  - apply IH; intros H; apply Hpre; right; exact H.
Qed.

(** [strip] returns the text between the first [c] and the last [c] of
    the same line. *)
Lemma strip_segment (c : char) (pre a b : str) :
  isLineTerminator c = false ->
  ~ In c pre -> singleLine a -> ~ In c (line b) ->
  strip (pre ++ c :: a ++ c :: b) c = a.
Proof.
  intros Hc Hpre Ha Hb; unfold strip.
  rewrite exec_strip_skip, exec_eq, matchHere_strip_segment by assumption.
  reflexivity.
Qed.

Lemma strip_wrapped (c : char) (a : str) :
  isLineTerminator c = false -> singleLine a ->
  strip (c :: a ++ [c]) c = a.
Proof.
  intros Hc Ha; apply (strip_segment c [] a []); auto.
Qed.

Lemma hasPair_count (c : char) (s : str) :
  hasPair c s -> 2 <= count_occ N.eq_dec s c.
Proof.
  intros (x & m & y & -> & _).
  rewrite count_occ_app, count_occ_cons_eq by reflexivity.
  rewrite count_occ_app, count_occ_cons_eq by reflexivity.
  lia.
Qed.

Lemma hasPair_In (c : char) (s : str) : hasPair c s -> In c s.
Proof.
  intros (x & m & y & -> & _); apply in_or_app; right; left; reflexivity.
Qed.

Lemma occurs_refl (s : str) : occurs s s.
Proof. exists [], []; rewrite app_nil_r; reflexivity. Qed.

Lemma occurs_trans (p q s : str) : occurs p q -> occurs q s -> occurs p s.
Proof.
  intros (a & b & ->) (x & y & ->).
  exists (x ++ a), (b ++ y); rewrite <- !app_assoc; reflexivity.
Qed.

Lemma occurs_strip (c : char) (s : str) : occurs (strip s c) s.
Proof.
  destruct (strip_cases c s) as [[_ ->] | (pre & a & b & E & _ & ->)].
  - apply occurs_refl.
  - exists (pre ++ [c]), (c :: b); rewrite E, <- app_assoc; reflexivity.
Qed.

(** X1.  Text outside the double quotes is discarded: when a line holds
    a double-quoted span, [stripQuotes] drops what comes before the
    first double quote and what follows the last double quote of that
    line, and goes on with the span alone. *)
Theorem X1_stripQuotes_discards_text_around_quotes (pre a b : str) :
  ~ In dquote pre -> singleLine a -> ~ In dquote (line b) ->
  stripQuotes (pre ++ dquote :: a ++ dquote :: b) = strip a squote /\
  (~ hasPair squote a ->
   stripQuotes (pre ++ dquote :: a ++ dquote :: b) = a).
Proof.
  intros Hpre Ha Hb.
  assert (E : stripQuotes (pre ++ dquote :: a ++ dquote :: b)
              = strip a squote).
  { unfold stripQuotes; rewrite strip_segment by (assumption || reflexivity).
    reflexivity. }
  split; [exact E|].
  intros Hs; rewrite E; apply strip_unchanged, Hs.
Qed.

Lemma X1_stripQuotes_discards_text_around_quotes_witness :
  stripQuotes (js "say \x22hi\x22 now") = js "hi".
Proof.
  refine (proj2 (X1_stripQuotes_discards_text_around_quotes
                   (js "say ") (js "hi") (js " now") _ _ _) _).
  - vm_compute; intuition discriminate.
  - repeat constructor.
  - vm_compute; intuition discriminate.
  - intros H; apply hasPair_count in H; vm_compute in H; lia.
Defined.

(** X2.  Wrapping a single line in quotes and stripping it gives the
    line back: in double quotes when the line has no two single quotes,
    in single quotes when the line has no double quote. *)
Theorem X2_quote_then_strip (a : str) :
  singleLine a ->
  (~ hasPair squote a -> stripQuotes (dquote :: a ++ [dquote]) = a) /\
  (~ In dquote a -> stripQuotes (squote :: a ++ [squote]) = a).
Proof.
  intros Ha; split.
  - intros Hs; unfold stripQuotes.
    rewrite strip_wrapped by (assumption || reflexivity).
    apply strip_unchanged, Hs.
  - intros Hd; unfold stripQuotes.
    assert (E : strip (squote :: a ++ [squote]) dquote
                = squote :: a ++ [squote]).
    { apply strip_unchanged; intros H; apply hasPair_In in H.
      destruct H as [H | H]; [discriminate|].
      apply in_app_or in H; destruct H as [H | [H | []]];
        [contradiction | discriminate]. }
    rewrite E; apply strip_wrapped; [reflexivity | exact Ha].
Qed.

Lemma X2_quote_then_strip_witness :
  stripQuotes (js "\x22it's\x22") = js "it's" /\
  stripQuotes (js "'weather today'") = js "weather today".
Proof.
  split.
  - refine (proj1 (X2_quote_then_strip (js "it's") _) _).
    + repeat constructor.
    + intros H; apply hasPair_count in H; vm_compute in H; lia.
  - refine (proj2 (X2_quote_then_strip (js "weather today") _) _).
    + repeat constructor.
    + vm_compute; intuition discriminate.
Defined.

(** X3.  [stripQuotes] only cuts: its result is a contiguous part of
    its argument and never longer than it. *)
Theorem X3_stripQuotes_is_part_of_input (s : str) :
  occurs (stripQuotes s) s /\ length (stripQuotes s) <= length s.
Proof.
  unfold stripQuotes; split.
  - eapply occurs_trans; [apply occurs_strip | apply occurs_strip].
  - etransitivity; [apply strip_length | apply strip_length].
Qed.

(** ** Well-formed completions *)

Lemma afterFirst_eq (p s : str) :
  afterFirst p s = if startsWith p s then Some (skipn (length p) s)
                   else match s with
                        | [] => None
                        | _ :: s' => afterFirst p s'
                        end.
Proof. destruct s; reflexivity. Qed.

Lemma afterFirst_here (p u : str) : afterFirst p (p ++ u) = Some u.
Proof.
  rewrite afterFirst_eq, startsWith_app.
  rewrite skipn_app, skipn_all, Nat.sub_diag; reflexivity.
Qed.

(** A marker without line terminators cannot straddle a line feed. *)
Lemma startsWith_barrier (p x w : str) :
  singleLine p -> breaksOrEnds w ->
  startsWith p (x ++ w) = startsWith p x.
Proof.
  intros Hp Hw; revert x; induction Hp as [|c p Hc Hp IH]; intros x.
  - destruct (x ++ w); destruct x; reflexivity.
  - destruct x as [|d x].
    + destruct Hw as [-> | (w' & ->)]; [reflexivity|].
      simpl app; rewrite startsWith_cons.
      destruct (c =? 10)%N eqn:E; [|reflexivity].
      apply N.eqb_eq in E; subst c; discriminate.
    + change ((d :: x) ++ w) with (d :: (x ++ w)).
      rewrite !startsWith_cons, IH; reflexivity.
Qed.

Lemma afterFirst_skip (p x w : str) :
  singleLine p -> breaksOrEnds w -> ~ occurs p x ->
  afterFirst p (x ++ w) = afterFirst p w.
Proof.
  intros Hp Hw; induction x as [|d x IH]; intros Hx; [reflexivity|].
  rewrite afterFirst_eq, startsWith_barrier by assumption.
  destruct (startsWith p (d :: x)) eqn:E.
  - exfalso; apply Hx, startsWith_occurs, E.
  - apply IH; intros H; apply Hx, occurs_cons, H.
Qed.

Lemma afterFirst_LF (p w : str) :
  singleLine p -> p <> [] -> afterFirst p (10%N :: w) = afterFirst p w.
Proof.
  intros Hp Hne; rewrite afterFirst_eq.
  destruct Hp as [|c p Hc Hp]; [contradiction|].
  rewrite startsWith_cons.
  destruct (c =? 10)%N eqn:E; [|reflexivity].
  apply N.eqb_eq in E; subst c; discriminate.
Qed.

(** The marker at the start of the second line, and of the third. *)
Lemma afterFirst_second_line (p x r : str) :
  singleLine p -> p <> [] -> ~ occurs p x ->
  afterFirst p (x ++ 10%N :: p ++ r) = Some r.
Proof.
  intros Hp Hne Hx.
  rewrite afterFirst_skip, afterFirst_LF, afterFirst_here;
    try assumption; [reflexivity|].
  right; eexists; reflexivity.
Qed.

Lemma afterFirst_third_line (p x y r : str) :
  singleLine p -> p <> [] -> ~ occurs p x -> ~ occurs p y ->
  afterFirst p (x ++ 10%N :: y ++ 10%N :: p ++ r) = Some r.
Proof.
  intros Hp Hne Hx Hy.
  rewrite afterFirst_skip, afterFirst_LF; try assumption.
  - apply afterFirst_second_line; assumption.
  - right; eexists; reflexivity.
Qed.

Lemma occurs_cons_inv (p s : str) (c : char) :
  occurs p (c :: s) -> startsWith p (c :: s) = true \/ occurs p s.
Proof.
  intros ([|d a] & b & E).
  - left; simpl in E; rewrite E; apply startsWith_app.
  - right; simpl in E; injection E as _ E; exists a, b; exact E.
Qed.

Lemma no_input_marker_in_action_line (n : str) :
  ~ occurs (js "Action Input: ") n ->
  ~ occurs (js "Action Input: ") (js "Action: " ++ n).
Proof.
  intros Hn H.
  change (js "Action: " ++ n)
    with (65 :: 99 :: 116 :: 105 :: 111 :: 110 :: 58 :: 32 :: n)%N in H.
  repeat (apply occurs_cons_inv in H;
          destruct H as [H | H]; [vm_compute in H; discriminate|]).
  contradiction.
Qed.

Lemma singleLine_cons (c : char) (s : str) :
  isLineTerminator c = false -> singleLine s -> singleLine (c :: s).
Proof. intros; constructor; assumption. Qed.

Section WellFormed.

Variables (t n i tail : str).
Hypothesis t_line : singleLine t.
Hypothesis n_line : singleLine n.
Hypothesis i_line : singleLine i.
Hypothesis tail_breaks : breaksOrEnds tail.
Hypothesis t_no_action : ~ occurs (js "Action:") t.
Hypothesis t_no_input : ~ occurs (js "Action Input: ") t.
Hypothesis n_no_input : ~ occurs (js "Action Input: ") n.

Lemma breaksOrEnds_terminated (w : str) :
  breaksOrEnds w ->
  w = [] \/ exists c w', w = c :: w' /\ isLineTerminator c = true.
Proof.
  intros [-> | (w' & ->)]; [left; reflexivity|].
  right; exists 10%N, w'; split; reflexivity.
Qed.

Lemma wellFormed_thought :
  thoughtCapture (wellFormedCompletion t n i tail) = t.
Proof.
  unfold thoughtCapture.
  change re_thought with (lineBefore (js "Action:")).
  change (wellFormedCompletion t n i tail)
    with (t ++ (10%N :: js "Action:")
            ++ (32%N :: n ++ js "\nAction Input: " ++ i ++ tail)).
  rewrite exec_lineBefore_line, startsWith_app; [reflexivity | exact t_line |].
  right; eexists _, _; split; reflexivity.
Qed.

Lemma wellFormed_action :
  exec re_action (wellFormedCompletion t n i tail) = Some [(1, n)].
Proof.
  change re_action with (markerLine (js "Action: ")).
  change (wellFormedCompletion t n i tail)
    with (t ++ 10%N :: js "Action: "
            ++ (n ++ (10%N :: js "Action Input: " ++ i ++ tail))).
  rewrite exec_markerLine, afterFirst_second_line.
  - cbn [option_map].
    destruct (line_app n (10%N :: js "Action Input: " ++ i ++ tail))
      as [-> _]; [exact n_line | | reflexivity].
    right; eexists _, _; split; reflexivity.
  - repeat constructor.
  - discriminate.
  - intros H; apply t_no_action.
    exact (occurs_prefix (js "Action:") [32%N] t H).
Qed.

Lemma wellFormed_input_after :
  afterFirst (js "Action Input: ") (wellFormedCompletion t n i tail)
  = Some (i ++ tail).
Proof.
  change (wellFormedCompletion t n i tail)
    with (t ++ 10%N :: (js "Action: " ++ n)
            ++ 10%N :: js "Action Input: " ++ (i ++ tail)).
  apply afterFirst_third_line.
  - repeat constructor.
  - discriminate.
  - exact t_no_input.
  - apply no_input_marker_in_action_line, n_no_input.
Qed.

Lemma wellFormed_line_input :
  line (i ++ tail) = i /\ afterLine (i ++ tail) = tail.
Proof.
  apply line_app; [exact i_line|].
  apply breaksOrEnds_terminated, tail_breaks.
Qed.

Lemma wellFormed_input :
  toolInputCapture (wellFormedCompletion t n i tail) = i.
Proof.
  unfold toolInputCapture.
  change re_actionInput with (markerLine (js "Action Input: ")).
  rewrite exec_markerLine, wellFormed_input_after; cbn [option_map].
  apply wellFormed_line_input.
Qed.

Lemma wellFormed_inputNC :
  toolInputCaptureNC (wellFormedCompletion t n i tail) = i.
Proof.
  unfold toolInputCaptureNC.
  change re_actionInputNC with (markerLineEnd (js "Action Input: ")).
  destruct (exec_markerLineEnd_first (js "Action Input: ")
              (wellFormedCompletion t n i tail) (i ++ tail))
    as [E _].
  - exact wellFormed_input_after.
  - destruct wellFormed_line_input as [_ ->]; exact tail_breaks.
  - rewrite E; apply wellFormed_line_input.
Qed.

Lemma wellFormed_actionNC :
  exists mA, exec re_actionNC (wellFormedCompletion t n i tail) = Some mA /\
             group mA 1 = 32%N :: n.
Proof.
  change re_actionNC with (markerLineEnd (js "Action:")).
  assert (L : line (32%N :: n ++ 10%N :: js "Action Input: " ++ i ++ tail)
              = 32%N :: n /\
              afterLine (32%N :: n ++ 10%N :: js "Action Input: " ++ i ++ tail)
              = 10%N :: js "Action Input: " ++ i ++ tail).
  { apply (line_app (32%N :: n)).
    - apply singleLine_cons; [reflexivity | exact n_line].
    - right; eexists _, _; split; reflexivity. }
  destruct (exec_markerLineEnd_first (js "Action:")
              (wellFormedCompletion t n i tail)
              (32%N :: n ++ 10%N :: js "Action Input: " ++ i ++ tail))
    as [E Hsome].
  - change (wellFormedCompletion t n i tail)
      with (t ++ 10%N :: js "Action:"
              ++ (32%N :: n ++ 10%N :: js "Action Input: " ++ i ++ tail)).
    apply afterFirst_second_line;
      [repeat constructor | discriminate | exact t_no_action].
  - destruct L as [_ ->]; right; eexists; reflexivity.
  - destruct (exec (markerLineEnd (js "Action:")) _) as [mA|];
      [|contradiction].
    exists mA; split; [reflexivity|].
    cbn [group1OrEmpty] in E; rewrite E; apply L.
Qed.

End WellFormed.

(** X11.  A completion in the prompted format (a non-empty thought
    line without [Action:] or [Action Input: ], a line [Action: ] with
    the name, a line [Action Input: ] with the input, then the end of
    the text or a line feed) is read by the conversational parser as
    the action on the tool of that name, with the thought trimmed and
    the input trimmed and quote-stripped. *)
Theorem X11_well_formed_completion_conversational
        (tools : list Plugin) (t n i tail : str) (tool : Plugin) :
  singleLine t -> t <> [] ->
  ~ occurs (js "Action:") t -> ~ occurs (js "Action Input: ") t ->
  singleLine n -> ~ occurs (js "Action Input: ") n ->
  singleLine i -> breaksOrEnds tail ->
  findTool tools (stripQuotes (trim n)) = Some tool ->
  _parseResult tools (wellFormedCompletion t n i tail)
  = Return (action_ {| thought := trim t;
                       plugin := tool;
                       pluginInput := stripQuotes (trim i) |}).
Proof.
  intros Ht Hne Hta Hti Hn Hni Hi Htail Hf.
  rewrite (_parseResult_resolved tools _ [(1, n)] tool).
  - rewrite wellFormed_thought, wellFormed_input by assumption.
    reflexivity.
  - rewrite wellFormed_thought by assumption; exact Hne.
  - apply wellFormed_action; assumption.
  - exact Hf.
Qed.

Lemma X11_well_formed_completion_conversational_witness :
  _parseResult [webSearch] searchCompletion
  = Return (action_ {| thought := js "I should search.";
                       plugin := webSearch;
                       pluginInput := js "weather today" |}).
Proof.
  apply (X11_well_formed_completion_conversational [webSearch]
           (js "I should search.") (js "web_search") (js "weather today")
           (js "\n") webSearch).
  - repeat constructor.
  - discriminate.
  - apply afterFirst_None; reflexivity.
  - apply afterFirst_None; reflexivity.
  - repeat constructor.
  - apply afterFirst_None; reflexivity.
  - repeat constructor.
  - right; exists []; reflexivity.
  - reflexivity.
Defined.

(** X12.  The non-conversational parser reads the same completions the
    same way, returning the six-field copy of the tool, when no line
    starts with [Positivity:] and the name is not empty and does not
    contain [None]. *)
Theorem X12_well_formed_completion_not_conversational
        (tools : list Plugin) (t n i tail : str) (tool : Plugin) :
  singleLine t -> t <> [] ->
  ~ occurs (js "Action:") t -> ~ occurs (js "Action Input: ") t ->
  singleLine n -> ~ occurs (js "Action Input: ") n ->
  singleLine i -> breaksOrEnds tail ->
  ~ occurs (js "\nPositivity:") (wellFormedCompletion t n i tail) ->
  stripQuotes (trim n) <> [] ->
  ~ occurs (js "None") (stripQuotes (trim n)) ->
  findTool tools (stripQuotes (trim n)) = Some tool ->
  parseResultForNotConversational tools (wellFormedCompletion t n i tail)
  = Return (action_ {| thought := trim t;
                       plugin := project tool;
                       pluginInput := stripQuotes (trim i) |}).
Proof.
  intros Ht Hne Hta Hti Hn Hni Hi Htail Hpos Hname Hnone Hf.
  destruct (wellFormed_actionNC t n i tail Hn Hta) as (mA & Ha & Hg).
  assert (Etrim : trim (group mA 1) = trim n) by (rewrite Hg; reflexivity).
  rewrite (parseNC_resolved tools _ mA tool).
  - rewrite wellFormed_thought, wellFormed_inputNC by assumption.
    reflexivity.
  - unfold positivityHigh, re_positivity.
    rewrite exec_literal_absent by exact Hpos; reflexivity.
  - rewrite wellFormed_thought by assumption; exact Hne.
  - exact Ha.
  - rewrite Etrim; exact Hname.
  - rewrite Etrim; exact Hnone.
  - rewrite Etrim; exact Hf.
Qed.

Lemma X12_well_formed_completion_not_conversational_witness :
  parseResultForNotConversational [webSearch] searchCompletion
  = Return (action_ {| thought := js "I should search.";
                       plugin := webSearch;
                       pluginInput := js "weather today" |}).
Proof.
  apply (X12_well_formed_completion_not_conversational [webSearch]
           (js "I should search.") (js "web_search") (js "weather today")
           (js "\n") webSearch).
  - repeat constructor.
  - discriminate.
  - apply afterFirst_None; reflexivity.
  - apply afterFirst_None; reflexivity.
  - repeat constructor.
  - apply afterFirst_None; reflexivity.
  - repeat constructor.
  - right; exists []; reflexivity.
  - apply afterFirst_None; reflexivity.
  - vm_compute; discriminate.
  - apply afterFirst_None; reflexivity.
  - reflexivity.
Defined.

(** ** The fence around long observations *)

Lemma length_split (sep : char) (s : str) :
  length (split sep s) = S (count_occ N.eq_dec s sep).
Proof.
  induction s as [|c s IH]; [reflexivity|].
  cbn [split]; destruct (c =? sep)%N eqn:E.
  - apply N.eqb_eq in E; subst c.
    rewrite count_occ_cons_eq by reflexivity; simpl; rewrite IH; reflexivity.
  - apply N.eqb_neq in E; rewrite count_occ_cons_neq by exact E.
    destruct (split sep s) as [|l ls]; [discriminate IH | exact IH].
Qed.

(** X14.  An observation is fenced exactly when it holds at least five
    line feeds; the count is of separators, so five lines that end in a
    line feed are fenced as well. *)
Theorem X14_fence_threshold (observation : str) :
  (count_occ N.eq_dec observation 10%N < 5 ->
   fence observation = observation) /\
  (5 <= count_occ N.eq_dec observation 10%N ->
   fence observation
   = js "\x22\x22\x22\n" ++ observation ++ js "\n\x22\x22\x22").
Proof.
  unfold fence; rewrite length_split; split; intros H.
  - destruct (Nat.ltb_spec 5 (S (count_occ N.eq_dec observation 10%N)));
      [lia | reflexivity].
  - destruct (Nat.ltb_spec 5 (S (count_occ N.eq_dec observation 10%N)));
      [reflexivity | lia].
Qed.

Lemma X14_fence_threshold_witness :
  fence (js "1\n2\n3\n4\n5\n")
  = js "\x22\x22\x22\n1\n2\n3\n4\n5\n\n\x22\x22\x22" /\
  fence (js "1\n2\n3\n4\n5") = js "1\n2\n3\n4\n5".
Proof.
  split.
  - apply (proj2 (X14_fence_threshold (js "1\n2\n3\n4\n5\n"))).
    vm_compute; lia.
  - apply (proj1 (X14_fence_threshold (js "1\n2\n3\n4\n5"))).
    vm_compute; lia.
Defined.

(** ** Prompt variables *)

Lemma split_no_sep (sep : char) (x : str) :
  ~ In sep x -> split sep x = [x].
Proof.
  induction x as [|c x IH]; intros H; [reflexivity|].
  cbn [split]; destruct (c =? sep)%N eqn:E.
  - apply N.eqb_eq in E; exfalso; apply H; left; exact E.
  - rewrite IH by (intros Hin; apply H; right; exact Hin); reflexivity.
Qed.

Lemma split_app_sep (sep : char) (x r : str) :
  ~ In sep x -> split sep (x ++ sep :: r) = x :: split sep r.
Proof.
  induction x as [|c x IH]; intros H.
  - cbn [app split]; rewrite N.eqb_refl; reflexivity.
  - change ((c :: x) ++ sep :: r) with (c :: (x ++ sep :: r)).
    cbn [split]; destruct (c =? sep)%N eqn:E.
    + apply N.eqb_eq in E; exfalso; apply H; left; exact E.
    + rewrite IH by (intros Hin; apply H; right; exact Hin); reflexivity.
Qed.

Lemma split_join (sep : char) (xs : list str) :
  xs <> [] -> Forall (fun x => ~ In sep x) xs ->
  split sep (join [sep] xs) = xs.
Proof.
  intros Hne H; induction H as [|x xs Hx Hxs IH]; [contradiction|].
  destruct xs as [|y xs].
  - apply split_no_sep, Hx.
  - change (join [sep] (x :: y :: xs))
      with (x ++ sep :: join [sep] (y :: xs)).
    rewrite split_app_sep by exact Hx.
    rewrite IH by discriminate; reflexivity.
Qed.

(** X15.  The prompt texts list the tools in order and can be taken
    apart again: splitting the tool names at the commas gives back the
    names when no name holds a comma, and splitting the descriptions at
    the line feeds gives back one [name: description] entry per tool
    when neither part holds a line feed.  This needs at least one tool:
    for an empty list both texts are empty. *)
Theorem X15_prompt_lists_split_back (tools : list Plugin) :
  tools <> [] ->
  (Forall (fun tool => ~ In 44%N (nameForModel tool)) tools ->
   split 44%N (toolNames tools) = map nameForModel tools) /\
  (Forall (fun tool => ~ In 10%N (nameForModel tool) /\
                       ~ In 10%N (descriptionForModel tool)) tools ->
   split 10%N (toolDescriptions tools)
   = map (fun tool => nameForModel tool ++ js ": "
                        ++ descriptionForModel tool) tools).
Proof.
  intros Hne; split; intros H.
  - unfold toolNames; change (js ",") with [44%N].
    apply split_join.
    + destruct tools; [contradiction | discriminate].
    + apply Forall_map; exact H.
  - unfold toolDescriptions; change (js "\n") with [10%N].
    apply split_join.
    + destruct tools; [contradiction | discriminate].
    + apply Forall_map; revert H; apply Forall_impl.
      intros tool [Hn Hd] Hin.
      apply in_app_or in Hin; destruct Hin as [Hin | Hin]; [auto|].
      apply in_app_or in Hin; destruct Hin as [Hin | Hin]; [|auto].
      vm_compute in Hin; intuition discriminate.
Qed.

Lemma X15_prompt_lists_split_back_witness :
  split 44%N (toolNames [webSearch; webSearch])
  = [js "web_search"; js "web_search"] /\
  toolNames [] = [] /\ toolDescriptions [] = [].
Proof.
  split; [|split; reflexivity].
  apply (proj1 (X15_prompt_lists_split_back [webSearch; webSearch]
                  ltac:(discriminate))).
  repeat constructor; vm_compute; intuition discriminate.
Defined.

(** ** Where an action decision comes from *)

(** X4.  The conversational parser takes the tool name from the first
    [Action: ] of the whole completion and the tool input from the
    first [Action Input: ], each up to the end of its line, wherever
    they stand with respect to the thought line; without any
    [Action Input: ] the tool input is empty. *)
Theorem X4_first_markers_decide
        (tools : list Plugin) (result : str) (a : Action) :
  _parseResult tools result = Return (action_ a) ->
  (exists u, firstAfter (js "Action: ") result u /\
             nameForModel (plugin a) = stripQuotes (trim (line u))) /\
  (forall w, firstAfter (js "Action Input: ") result w ->
             pluginInput a = stripQuotes (trim (line w))) /\
  (~ occurs (js "Action Input: ") result -> pluginInput a = []).
Proof.
  intros H; apply _parseResult_action_inv in H.
  destruct H as (_ & _ & Hi & mA & Ha & Hf).
  apply findTool_Some in Hf; destruct Hf as [_ Hname].
  change re_action with (markerLine (js "Action: ")) in Ha.
  rewrite exec_markerLine in Ha.
  destruct (afterFirst (js "Action: ") result) as [u|] eqn:Hu;
    [|discriminate].
  injection Ha as <-; cbn [group Nat.eqb] in Hname.
  split; [|split].
  - exists u; split; [apply afterFirst_Some, Hu | exact Hname].
  - intros w Hw; rewrite Hi; unfold toolInputCapture.
    change re_actionInput with (markerLine (js "Action Input: ")).
    rewrite (capture_markerLine _ _ _ Hw); reflexivity.
  - intros Hno; rewrite Hi; unfold toolInputCapture, re_actionInput.
    rewrite exec_literal_absent by exact Hno; reflexivity.
Qed.

(** The action named before the thought line is the one that counts. *)
Lemma X4_first_markers_decide_witness :
  (exists u, firstAfter (js "Action: ")
               (js "Action: web_search\nthink\nAction: other\n") u /\
             nameForModel webSearch = stripQuotes (trim (line u))) /\
  (forall w, firstAfter (js "Action Input: ")
               (js "Action: web_search\nthink\nAction: other\n") w ->
             [] = stripQuotes (trim (line w))) /\
  (~ occurs (js "Action Input: ")
     (js "Action: web_search\nthink\nAction: other\n") -> @nil char = []).
Proof.
  exact (X4_first_markers_decide [webSearch]
           (js "Action: web_search\nthink\nAction: other\n")
           {| thought := js "think"; plugin := webSearch; pluginInput := [] |}
           eq_refl).
Defined.

(** ** The scratchpad and the parser *)

Lemma stepTextNotConversational_wellFormed (r : PluginResult) :
  stepTextNotConversational r
  = js "Thought: "
      ++ wellFormedCompletion
           (thought (action r)) (nameForModel (plugin (action r)))
           (pluginInput (action r))
           (js "\nObservation: " ++ fence (result r) ++ js "\n").
Proof.
  unfold stepTextNotConversational, wellFormedCompletion, unlines.
  cbn [map concat]; rewrite app_nil_r, <- !app_assoc; reflexivity.
Qed.

Lemma project_id (tool : Plugin) : project tool = tool.
Proof. destruct tool; reflexivity. Qed.

(** X16.  What the non-conversational builder writes for a prior step
    is read back by the non-conversational parser as that step: after
    the leading [Thought: ], the block of a step whose thought, tool
    name and input are single lines that trimming and quote-stripping
    leave alone, and whose tool is the one the list resolves the name
    to, parses to the step's own action. *)
Theorem X16_step_block_reads_back
        (tools : list Plugin) (r : PluginResult) :
  singleLine (thought (action r)) -> thought (action r) <> [] ->
  ~ occurs (js "Action:") (thought (action r)) ->
  ~ occurs (js "Action Input: ") (thought (action r)) ->
  trim (thought (action r)) = thought (action r) ->
  singleLine (nameForModel (plugin (action r))) ->
  ~ occurs (js "Action Input: ") (nameForModel (plugin (action r))) ->
  nameForModel (plugin (action r)) <> [] ->
  ~ occurs (js "None") (nameForModel (plugin (action r))) ->
  stripQuotes (trim (nameForModel (plugin (action r))))
  = nameForModel (plugin (action r)) ->
  findTool tools (nameForModel (plugin (action r)))
  = Some (plugin (action r)) ->
  singleLine (pluginInput (action r)) ->
  stripQuotes (trim (pluginInput (action r))) = pluginInput (action r) ->
  ~ occurs (js "\nPositivity:") (stepTextNotConversational r) ->
  exists rest,
    stepTextNotConversational r = js "Thought: " ++ rest /\
    parseResultForNotConversational tools rest
    = Return (action_ (action r)).
Proof.
  intros Ht Hne Hta Hti Htrim Hn Hni Hnne Hnone Hnstrip Hf Hi Histrip Hpos.
  eexists; split; [apply stepTextNotConversational_wellFormed|].
  rewrite stepTextNotConversational_wellFormed in Hpos.
  set (tail := js "\nObservation: " ++ fence (result r) ++ js "\n") in *.
  assert (Htail : breaksOrEnds tail) by (right; eexists; reflexivity).
  destruct (wellFormed_actionNC _ _ (pluginInput (action r)) tail Hn Hta)
    as (mA & Ha & Hg).
  assert (Etrim : stripQuotes (trim (group mA 1))
                  = nameForModel (plugin (action r))).
  { rewrite Hg; exact Hnstrip. }
  rewrite (parseNC_resolved tools _ mA (plugin (action r))).
  - rewrite wellFormed_thought, wellFormed_inputNC by assumption.
    rewrite Htrim, Histrip, project_id.
    destruct (action r); reflexivity.
  - unfold positivityHigh, re_positivity.
    rewrite exec_literal_absent; [reflexivity|].
    intros H; apply Hpos, occurs_app_l, H.
  - rewrite wellFormed_thought by assumption; exact Hne.
  - exact Ha.
  - rewrite Etrim; exact Hnne.
  - rewrite Etrim; exact Hnone.
  - rewrite Etrim; exact Hf.
Qed.

Lemma X16_step_block_reads_back_witness :
  exists rest,
    stepTextNotConversational searchStep = js "Thought: " ++ rest /\
    parseResultForNotConversational [webSearch] rest
    = Return (action_ (action searchStep)).
Proof.
  apply (X16_step_block_reads_back [webSearch] searchStep);
    try (apply afterFirst_None; reflexivity);
    try (repeat constructor; fail);
    try reflexivity;
    vm_compute; discriminate.
Defined.
